(** * Alma: time-travel variables (alma/alma.py), a shallow embedding

    The development follows the layout of [alma.py]:
    - Python values and the object heap (what [copy.deepcopy] works on),
    - the exceptions of the module,
    - [ChangeRecord], [AlmaVar] and its methods, written in a small
      state-and-exception monad that mirrors the in-place mutation of the
      Python object,
    - [AlmaRegistry] over a store of variable objects,
    - the properties of the specification.

    Modelling boundaries.  Threads are not modelled: every method body that
    touches [_history] or [_frozen] runs under the variable's lock, so a
    method is one atomic step here.  Validators and listeners are external
    callables; they are modelled as observers (they read the heap and the
    variable, they do not call back into it), and each call is recorded in
    a trace so that order and number of calls can be stated.  Exceptions are
    instances of Python's [Exception]; interpreter signals outside that
    class are not modelled.  [datetime.now] is an oracle giving microseconds
    since the epoch; float arithmetic in [diff] is idealised to rationals. *)

From stdpp Require Import base option list strings gmap pretty.
From Stdlib Require Import ZArith QArith Qround Lia.

Local Open Scope Z_scope.
Local Open Scope list_scope.

(** ** Python values and the heap *)

Abbreviation loc := nat (only parsing).

(** Immutable values: [deepcopy] returns them as they are. *)
Inductive atom :=
  | ANone
  | ABool (b : bool)
  | AInt (z : Z)
  | AStr (s : string).

(** A value is an immutable atom or a reference to a heap object. *)
Inductive val :=
  | VAtom (a : atom)
  | VRef (l : loc).

Abbreviation VInt z := (VAtom (AInt z)).

(** Heap objects: a mutable container, written as the list of the values
    it holds (a list; for a dict, its values), or an object that
    [deepcopy] cannot copy (a lock, a generator, an open file). *)
Inductive obj :=
  | OList (items : list val)
  | OOpaque.

(** Object identities are positions in the heap; allocation appends. *)
Abbreviation heap := (list obj) (only parsing).

(** What [==] and indexing can observe of a value: its unfolding as a tree.
    An opaque object compares by identity. *)
#[warnings="-register-all"]
Inductive tree :=
  | TAtom (a : atom)
  | TList (ts : list tree)
  | TOpaque (l : loc)
  | TCut.

Fixpoint view (depth : nat) (h : heap) (v : val) {struct depth} : tree :=
  match depth with
  | O => match v with VAtom a => TAtom a | VRef _ => TCut end
  | S d =>
      match v with
      | VAtom a => TAtom a
      | VRef l =>
          match h !! l with
          | Some (OList items) => TList (map (view d h) items)
          | Some OOpaque => TOpaque l
          | None => TCut
          end
      end
  end.

(** [copy.deepcopy] of the standard library on this universe of values.
    Atoms are returned as they are; a container is copied item by item
    into a new object; an opaque object raises [TypeError]; the fuel is the
    interpreter's recursion limit ([RecursionError]).  [None] stands for
    the raised exception.  The memo table of [deepcopy] is not modelled: a
    shared item is copied once per occurrence, and on a cyclic structure
    the fuel runs out. *)
Fixpoint copy_items (copy : heap -> val -> option (heap * val))
    (h : heap) (items : list val) : option (heap * list val) :=
  match items with
  | [] => Some (h, [])
  | x :: xs =>
      match copy h x with
      | None => None
      | Some (h1, x') =>
          match copy_items copy h1 xs with
          | None => None
          | Some (h2, xs') => Some (h2, x' :: xs')
          end
      end
  end.

Fixpoint deepcopy_rec (fuel : nat) (h : heap) (v : val) : option (heap * val) :=
  match v with
  | VAtom _ => Some (h, v)
  | VRef l =>
      match fuel with
      | O => None
      | S f =>
          match h !! l with
          | Some (OList items) =>
              match copy_items (deepcopy_rec f) h items with
              | None => None
              | Some (h', items') => Some (h' ++ [OList items'], VRef (length h'))
              end
          | Some OOpaque => None
          | None => None
          end
      end
  end.

Definition recursion_limit : nat := 1000.

Definition deepcopy (h : heap) (v : val) : option (heap * val) :=
  deepcopy_rec recursion_limit h v.

(** Well-formed heaps: no dangling reference.  Every Python heap is so. *)
Definition val_ok (h : heap) (v : val) : bool :=
  match v with
  | VAtom _ => true
  | VRef l => bool_decide (l < length h)%nat
  end.

Definition obj_ok (h : heap) (o : obj) : bool :=
  match o with
  | OList items => forallb (val_ok h) items
  | OOpaque => true
  end.

Definition heap_ok (h : heap) : bool := forallb (obj_ok h) h.

(** [isolated d n h v]: [v] unfolds in [h], within depth [d], to a finite
    tree of containers and atoms all of whose objects have identity at least
    [n]: nothing that existed when the heap had [n] objects is shared. *)
Fixpoint isolated (d : nat) (n : nat) (h : heap) (v : val) : Prop :=
  match v with
  | VAtom _ => True
  | VRef l =>
      match d with
      | O => False
      | S d' =>
          (n <= l)%nat /\
          exists items, h !! l = Some (OList items) /\ Forall (isolated d' n h) items
      end
  end.

(** In a well-formed heap a successful deep copy looks exactly like the
    original, and the heap stays well-formed. *)
Definition copy_ok (h : heap) (v : val) (h' : heap) (v' : val) : Prop :=
  (exists ext, h' = h ++ ext) /\
  heap_ok h' = true /\ val_ok h' v' = true /\
  forall k, view k h' v' = view k h v.

(** ** Exceptions *)

(** [AlmaError], [RollbackError] and [FrozenError] are the module's own.  A
    validator rejects a value by raising [ValueError] with its message (the
    specification calls it a validation error).  [IndexError] is Python's
    for a list index out of range, [RuntimeError] is what the listener of
    the tests raises, [CopyError] stands for whatever [copy.deepcopy]
    raises. *)
Inductive exn :=
  | AlmaError (msg : string)
  | RollbackError (msg : string)
  | FrozenError (msg : string)
  | ValueError (msg : string)
  | RuntimeError (msg : string)
  | IndexError
  | CopyError.

(** ** A state-and-exception monad for method bodies *)

Definition M (S A : Type) : Type := S -> S * (exn + A).

Global Instance M_ret {S} : MRet (M S) := fun A a s => (s, inr a).

Global Instance M_bind {S} : MBind (M S) := fun A B f m s =>
  match m s with
  | (s', inl e) => (s', inl e)
  | (s', inr a) => f a s'
  end.

Definition raise {S A} (e : exn) : M S A := fun s => (s, inl e).

(** [try: m except Exception: handler] *)
Definition try_except {S A} (m : M S A) (handler : exn -> M S A) : M S A :=
  fun s =>
    match m s with
    | (s', inl e) => handler e s'
    | (s', inr a) => (s', inr a)
    end.

(** [for x in xs: body x] *)
Fixpoint for_ {S A} (xs : list A) (body : A -> M S unit) : M S unit :=
  match xs with
  | [] => mret tt
  | x :: xs' => body x ;; for_ xs' body
  end.

(** [a or b] on an optional string: [None] and the empty string are falsy. *)
Definition py_or (a : option string) (b : string) : string :=
  match a with
  | Some s => if bool_decide (s = "") then b else s
  | None => b
  end.

(** ** Data model *)

Record ChangeRecord := mkChangeRecord {
  index : Z;
  value : val;
  timestamp : Z;            (* microseconds since the epoch, UTC *)
  label : option string
}.

(** A validator is called with the value; [Some msg] is [raise ValueError(msg)]. *)
Record Validator := mkValidator {
  v_id : nat;
  v_call : heap -> val -> option string
}.

(** A listener is called with the variable (it may read its name, frozen
    flag and history) and the new record; [Some e] is [raise e]. *)
Record Listener := mkListener {
  l_id : nat;
  l_call : heap -> string -> bool -> list ChangeRecord -> ChangeRecord -> option exn
}.

(** Calls of external callables, in the order they happen. *)
Inductive event :=
  | Validate (id : nat) (v : val)
  | Notify (id : nat) (r : ChangeRecord).

(** What is outside the variable: the heap, the clock behind
    [datetime.now] with the number of readings taken, and the call trace. *)
Record World := mkWorld {
  w_heap : heap;
  w_clock : nat -> Z;
  w_ticks : nat;
  w_trace : list event
}.

(** An entry of [diff]: the dict with keys [from_index], [to_index],
    [from_value], [to_value] and [elapsed_ms]. *)
Record DiffEntry := mkDiffEntry {
  from_index : Z;
  to_index : Z;
  from_value : val;
  to_value : val;
  elapsed_ms : Q
}.

(** [timedelta.total_seconds()] of a difference given in microseconds. *)
Definition total_seconds (delta : Z) : Q := (delta # 1000000)%Q.

(** Rounding to the nearest integer, ties to even, as Python's [round]. *)
Definition round_half_even (q : Q) : Z :=
  let f := Qfloor q in
  match (q - inject_Z f ?= 1 # 2)%Q with
  | Lt => f
  | Gt => f + 1
  | Eq => if Z.even f then f else f + 1
  end.

(** [round(q, 3)] *)
Definition round3 (q : Q) : Q := (round_half_even (q * 1000) # 1000)%Q.

(** ** class AlmaVar *)

Module AlmaVar.

Record t := mk {
  _name : string;
  _deep_copy : bool;
  _validators : list Validator;
  _listeners : list Listener;
  _frozen : bool;
  _history : list ChangeRecord
}.

(** Assignments to the attributes that change after construction. *)
Definition with_history (hist : list ChangeRecord) (x : t) : t :=
  mk (_name x) (_deep_copy x) (_validators x) (_listeners x) (_frozen x) hist.

Definition with_frozen (b : bool) (x : t) : t :=
  mk (_name x) (_deep_copy x) (_validators x) (_listeners x) b (_history x).

Definition with_validators (vs : list Validator) (x : t) : t :=
  mk (_name x) (_deep_copy x) vs (_listeners x) (_frozen x) (_history x).

Definition with_listeners (ls : list Listener) (x : t) : t :=
  mk (_name x) (_deep_copy x) (_validators x) ls (_frozen x) (_history x).

(** The state a method runs in: the world and the object [self]. *)
Record St := mkSt {
  st_world : World;
  st_self : t
}.

Definition st_heap (s : St) : heap := w_heap (st_world s).
Definition st_trace (s : St) : list event := w_trace (st_world s).

(** *** State updates and primitive steps *)

Definition with_self (x : t) (s : St) : St := mkSt (st_world s) x.

Definition with_heap (h : heap) (s : St) : St :=
  let w := st_world s in
  mkSt (mkWorld h (w_clock w) (w_ticks w) (w_trace w)) (st_self s).

Definition tick (s : St) : St :=
  let w := st_world s in
  mkSt (mkWorld (w_heap w) (w_clock w) (S (w_ticks w)) (w_trace w)) (st_self s).

Definition log (es : list event) (s : St) : St :=
  let w := st_world s in
  mkSt (mkWorld (w_heap w) (w_clock w) (w_ticks w) (w_trace w ++ es)) (st_self s).

Definition get_self : M St t := fun s => (s, inr (st_self s)).

Definition get_heap : M St heap := fun s => (s, inr (st_heap s)).

Definition put_self (x : t) : M St unit := fun s => (with_self x s, inr tt).

Definition emit (e : event) : M St unit := fun s => (log [e] s, inr tt).

(** [datetime.now(tz=timezone.utc)] *)
Definition now : M St Z := fun s =>
  (tick s, inr (w_clock (st_world s) (w_ticks (st_world s)))).

(** [copy.deepcopy(value)] *)
Definition py_deepcopy (value : val) : M St val := fun s =>
  match deepcopy (st_heap s) value with
  | Some (h', v') => (with_heap h' s, inr v')
  | None => (s, inl CopyError)
  end.

(** [validate(value)] *)
Definition call_validator (validate : Validator) (value : val) : M St unit :=
  emit (Validate (v_id validate) value) ;;
  h ← get_heap;
  match v_call validate h value with
  | Some msg => raise (ValueError msg)
  | None => mret tt
  end.

(** [listener(self, record)] *)
Definition call_listener (listener : Listener) (record : ChangeRecord) : M St unit :=
  emit (Notify (l_id listener) record) ;;
  h ← get_heap;
  self ← get_self;
  match l_call listener h (_name self) (_frozen self) (_history self) record with
  | Some e => raise e
  | None => mret tt
  end.

(** *** Methods *)

Definition _snapshot (value : val) : M St val :=
  self ← get_self;
  if _deep_copy self
  then try_except (py_deepcopy value) (fun _ => mret value)
  else mret value.

(** [__init__]: the constructor, run in a world [w]. *)
Definition __init__ (w : World) (name : string) (initial_value : val)
    (deep_copy : bool) (validators : option (list Validator))
    (on_change : option (list Listener)) : St * (exn + unit) :=
  let self :=
    mk name deep_copy (default [] validators) (default [] on_change) false [] in
  (snapshot ← _snapshot initial_value;
   ts ← now;
   self ← get_self;
   let record := mkChangeRecord 0 snapshot ts (Some "initial") in
   put_self (with_history (_history self ++ [record]) self))
    (mkSt w self).

Definition name : M St string :=
  self ← get_self; mret (_name self).

Definition get : M St val :=
  self ← get_self;
  match last (_history self) with
  | Some r => mret (value r)
  | None => raise IndexError
  end.

Definition set (value : val) (label : option string) : M St unit :=
  self ← get_self;
  if _frozen self
  then raise (FrozenError
                ("Variable '" +:+ _name self +:+ "' is frozen and cannot be mutated."))
  else
    for_ (_validators self) (fun validate => call_validator validate value) ;;
    snapshot ← _snapshot value;
    self ← get_self;
    let i := Z.of_nat (length (_history self)) in
    ts ← now;
    let record := mkChangeRecord i snapshot ts label in
    put_self (with_history (_history self ++ [record]) self) ;;
    self ← get_self;
    for_ (_listeners self)
         (fun listener =>
            try_except (call_listener listener record) (fun _ => mret tt)).

Definition history : M St (list ChangeRecord) :=
  self ← get_self; mret (_history self).

Definition last_change : M St ChangeRecord :=
  self ← get_self;
  match last (_history self) with
  | Some r => mret r
  | None => raise IndexError
  end.

Definition rollback (index : Z) (label : option string) : M St unit :=
  self ← get_self;
  if _frozen self
  then raise (FrozenError
                ("Variable '" +:+ _name self +:+ "' is frozen and cannot be rolled back."))
  else if bool_decide (index < 0 \/ index >= Z.of_nat (length (_history self)))
  then raise (RollbackError
                ("Rollback index " +:+ pretty index +:+ " is out of range [0, "
                 +:+ pretty (Z.of_nat (length (_history self)) - 1)
                 +:+ "] for variable '" +:+ _name self +:+ "'."))
  else
    target_value ←
      match _history self !! Z.to_nat index with
      | Some r => mret (value r)
      | None => raise IndexError
      end;
    let rollback_label := py_or label ("rollback to index " +:+ pretty index) in
    snapshot ← _snapshot target_value;
    set snapshot (Some rollback_label).

Definition freeze : M St unit :=
  self ← get_self;
  put_self (with_frozen true self).

Definition thaw : M St unit :=
  self ← get_self;
  put_self (with_frozen false self).

Definition is_frozen : M St bool :=
  self ← get_self; mret (_frozen self).

Definition add_validator (fn : Validator) : M St unit :=
  self ← get_self;
  put_self (with_validators (_validators self ++ [fn]) self).

Definition add_listener (fn : Listener) : M St unit :=
  self ← get_self;
  put_self (with_listeners (_listeners self ++ [fn]) self).

Definition diff_entry (prev curr : ChangeRecord) : DiffEntry :=
  let elapsed := (total_seconds (timestamp curr - timestamp prev) * 1000)%Q in
  mkDiffEntry (index prev) (index curr) (value prev) (value curr) (round3 elapsed).

(** The loop [for i in range(1, len(records))] with its accumulator. *)
Fixpoint diff_loop (records : list ChangeRecord) (range : list nat)
    (result : list DiffEntry) : exn + list DiffEntry :=
  match range with
  | [] => inr result
  | i :: range' =>
      match records !! (i - 1)%nat, records !! i with
      | Some prev, Some curr =>
          diff_loop records range' (result ++ [diff_entry prev curr])
      | _, _ => inl IndexError
      end
  end.

Definition diff : M St (list DiffEntry) :=
  records ← history;
  match diff_loop records (seq 1 (length records - 1)) [] with
  | inr result => mret result
  | inl e => raise e
  end.

Definition reset : M St unit := rollback 0 (Some "reset to initial").

End AlmaVar.

(** ** class AlmaRegistry *)

Module AlmaRegistry.

(** The registry's dict [_vars] maps a name to an [AlmaVar] object; the
    objects live in a store and are shared by identity with the callers
    that hold them. *)
Record St := mkSt {
  st_world : World;
  st_objs : list AlmaVar.t;
  st_vars : gmap string nat
}.

Definition get_vars : M St (gmap string nat) := fun s => (s, inr (st_vars s)).

Definition put_vars (vars : gmap string nat) : M St unit := fun s =>
  (mkSt (st_world s) (st_objs s) vars, inr tt).

(** [AlmaVar(name, initial_value, ...)]: construct and allocate. *)
Definition new_AlmaVar (name : string) (initial_value : val) (deep_copy : bool)
    (validators : option (list Validator)) (on_change : option (list Listener))
    : M St nat := fun s =>
  match AlmaVar.__init__ (st_world s) name initial_value deep_copy validators on_change with
  | (vs, inr _) =>
      (mkSt (AlmaVar.st_world vs) (st_objs s ++ [AlmaVar.st_self vs]) (st_vars s),
       inr (length (st_objs s)))
  | (vs, inl e) => (mkSt (AlmaVar.st_world vs) (st_objs s) (st_vars s), inl e)
  end.

(** [var.method(...)] on the object with identity [var]. *)
Definition call {A} (var : nat) (method : M AlmaVar.St A) : M St A := fun s =>
  match st_objs s !! var with
  | Some self =>
      match method (AlmaVar.mkSt (st_world s) self) with
      | (vs, r) =>
          (mkSt (AlmaVar.st_world vs) (<[var := AlmaVar.st_self vs]> (st_objs s))
                (st_vars s), r)
      end
  | None => (s, inl IndexError)
  end.

Definition watch (name : string) (initial_value : val) (deep_copy : bool)
    (validators : option (list Validator)) (on_change : option (list Listener))
    (overwrite : bool) : M St nat :=
  vars ← get_vars;
  if bool_decide (is_Some (vars !! name)) && negb overwrite
  then raise (AlmaError
                ("Variable '" +:+ name +:+ "' is already registered. "
                 +:+ "Use overwrite=True to replace it."))
  else
    var ← new_AlmaVar name initial_value deep_copy validators on_change;
    vars ← get_vars;
    put_vars (<[name := var]> vars) ;;
    mret var.

Definition get_var (name : string) : M St nat :=
  vars ← get_vars;
  match vars !! name with
  | Some var => mret var
  | None => raise (AlmaError ("No variable named '" +:+ name +:+ "' is registered."))
  end.

Definition all_vars : M St (gmap string nat) := get_vars.

Definition unregister (name : string) : M St unit :=
  vars ← get_vars;
  if bool_decide (is_Some (vars !! name))
  then put_vars (delete name vars)
  else raise (AlmaError ("No variable named '" +:+ name +:+ "' is registered.")).

(** [__init__]: an empty dict.  [objs] are the variable objects that exist
    when the registry is created. *)
Definition __init__ (w : World) (objs : list AlmaVar.t) : St := mkSt w objs ∅.

(** The dict comprehension of [snapshot]:
    [{name: var.get() for name, var in self._vars.items()}].  The items
    are visited in the order of [map_to_list], not in insertion order. *)
Fixpoint snapshot_loop (items : list (string * nat)) (result : gmap string val)
    : M St (gmap string val) :=
  match items with
  | [] => mret result
  | (name, var) :: items' =>
      g ← call var AlmaVar.get;
      snapshot_loop items' (<[name := g]> result)
  end.

Definition snapshot : M St (gmap string val) :=
  vars ← get_vars;
  snapshot_loop (map_to_list vars) ∅.

End AlmaRegistry.

(** ** Module-level API *)

(** The state of the module is its default registry [_default_registry];
    [watch] delegates to it. *)
Definition watch (name : string) (initial_value : val) (deep_copy : bool)
    (validators : option (list Validator)) (on_change : option (list Listener))
    (overwrite : bool) : M AlmaRegistry.St nat :=
  AlmaRegistry.watch name initial_value deep_copy validators on_change overwrite.

(** ** Sessions: a caller working on one variable *)

Import AlmaVar.

(** The caller mutates an object it holds ([data["count"] = 99],
    [data.append(4)]): the object with identity [l] becomes [o]. *)
Definition mutate (l : loc) (o : obj) : M St unit := fun s =>
  (with_heap (<[l := o]> (st_heap s)) s, inr tt).

(** The caller creates a new object. *)
Definition allocate (o : obj) : M St unit := fun s =>
  (with_heap (st_heap s ++ [o]) s, inr tt).

Inductive call :=
  | CSet (v : val) (lab : option string)
  | CRollback (i : Z) (lab : option string)
  | CReset
  | CFreeze
  | CThaw
  | CAddValidator (fn : Validator)
  | CAddListener (fn : Listener)
  | CGet
  | CHistory
  | CLastChange
  | CDiff
  | CIsFrozen
  | CMutate (l : loc) (o : obj)
  | CAllocate (o : obj).

Definition run_call (c : call) : M St unit :=
  match c with
  | CSet v lab => AlmaVar.set v lab
  | CRollback i lab => rollback i lab
  | CReset => reset
  | CFreeze => freeze
  | CThaw => thaw
  | CAddValidator fn => add_validator fn
  | CAddListener fn => add_listener fn
  | CGet => AlmaVar.get ;; mret tt
  | CHistory => history ;; mret tt
  | CLastChange => last_change ;; mret tt
  | CDiff => diff ;; mret tt
  | CIsFrozen => is_frozen ;; mret tt
  | CMutate l o => mutate l o
  | CAllocate o => allocate o
  end.

(** The calls that append a record when they succeed. *)
Definition appends (c : call) : bool :=
  match c with
  | CSet _ _ | CRollback _ _ | CReset => true
  | _ => false
  end.

Definition succeeded {A} (r : exn + A) : bool :=
  match r with inr _ => true | inl _ => false end.

(** Run the calls one after the other; a caller that gets an exception
    carries on with the next call.  The number returned counts the
    successful [set] and [rollback] calls. *)
Fixpoint run (cs : list call) (s : St) : St * nat :=
  match cs with
  | [] => (s, O)
  | c :: cs' =>
      let '(s1, r) := run_call c s in
      let '(s2, k) := run cs' s1 in
      (s2, ((if appends c && succeeded r then 1 else 0) + k)%nat)
  end.

(** A variable: what the constructor built, after any calls. *)
Definition reachable (s : St) : Prop :=
  exists w name initial_value deep_copy validators on_change cs,
    s = (run cs (__init__ w name initial_value deep_copy validators on_change).1).1.

(** ** What the method bodies compute *)

(** What the loop over the validators does, as a function: the calls made
    and the message of the first rejection. *)
Fixpoint validate_all (h : heap) (v : val) (vs : list Validator)
    : list event * option string :=
  match vs with
  | [] => ([], None)
  | x :: xs =>
      match v_call x h v with
      | Some msg => ([Validate (v_id x) v], Some msg)
      | None =>
          let '(es, r) := validate_all h v xs in
          (Validate (v_id x) v :: es, r)
      end
  end.

(** What [_snapshot] stores: the deep copy when it is asked for and
    succeeds, the value itself otherwise. *)
Definition snapshot_of (deep_copy : bool) (h : heap) (v : val) : heap * val :=
  if deep_copy
  then match deepcopy h v with Some r => r | None => (h, v) end
  else (h, v).

(** ** The history invariant *)

(** The history is never empty, starts with the record labelled
    ["initial"], and every record carries its own position. *)
Definition history_ok (hist : list ChangeRecord) : Prop :=
  (1 <= length hist)%nat /\
  label <$> hist !! 0%nat = Some (Some "initial") /\
  forall i r, hist !! i = Some r -> index r = Z.of_nat i.

(** ** Validation (C1) *)

(** What a rejected [set] looks like: validator [vd], registered after the
    validators [pre], rejects with [msg].  The call raises the validator's
    error; the validators called are [pre] and then [vd], in this order,
    and nothing else was called (no later validator, no listener); the
    object and the heap are as before, so [get] answers as before. *)
Definition rejected_by (s : St) (v : val) (lab : option string)
    (pre : list Validator) (vd : Validator) (msg : string) : Prop :=
  let '(s', r) := AlmaVar.set v lab s in
  r = inl (ValueError msg) /\
  st_trace s' = st_trace s ++ map (fun x => Validate (v_id x) v) (pre ++ [vd]) /\
  st_self s' = st_self s /\
  st_heap s' = st_heap s /\
  (AlmaVar.get s').2 = (AlmaVar.get s).2.

(** [v < 0] raises [ValueError("negative")], as in the tests. *)
Definition must_be_positive : Validator :=
  mkValidator 0 (fun _ v =>
    match v with
    | VInt z => if bool_decide (z < 0) then Some "negative" else None
    | _ => None
    end).

Definition epoch : World := mkWorld [] (fun n => Z.of_nat n * 1500) 0 [].

(** [age = AlmaVar("age", 0, validators=[must_be_positive])] *)
Definition age : St := (__init__ epoch "age" (VInt 0) true (Some [must_be_positive]) None).1.

(** [age.freeze()] *)
Definition age_frozen : St := (freeze age).1.

(** ** [diff] (C8) *)


Definition elapsed_nonneg (d : list DiffEntry) : Prop :=
  Forall (fun e => (0 <= elapsed_ms e)%Q) d.



(** ** Rollback (C4, C5) *)

(** [get] returns in [s'] a value that looks like the one it returned in [s]. *)
Definition same_value (s s' : St) : Prop :=
  exists g g',
    AlmaVar.get s = (s, inr g) /\ AlmaVar.get s' = (s', inr g') /\
    forall k, view k (st_heap s') g' = view k (st_heap s) g.

(** The boundary behaviour of [rollback] on a history of length [n]:
    [-1] and [n] raise [RollbackError] and change nothing, [n - 1] returns
    and [get] returns an equal value afterwards. *)
Definition rollback_boundary (s : St) : Prop :=
  let n := Z.of_nat (length (_history (st_self s))) in
  (forall lab, exists msg, rollback (-1) lab s = (s, inl (RollbackError msg))) /\
  (forall lab, exists msg, rollback n lab s = (s, inl (RollbackError msg))) /\
  (forall lab, exists s', rollback (n - 1) lab s = (s', inr tt) /\ same_value s s').

(** A heap with the list [[1, 2]]. *)
Definition shelf : World :=
  mkWorld [OList [VInt 1; VInt 2]] (fun n => Z.of_nat n * 1500) 0 [].

(** [d = AlmaVar("d", data); d.set(5)] where [data] is that list. *)
Definition data_var : St :=
  (run [CSet (VInt 5) None] (__init__ shelf "d" (VRef 0) true None None).1).1.

(** [score = watch("score", 0); score.set(10).set(20).set(30)] *)
Definition score : St :=
  (run [CSet (VInt 10) None; CSet (VInt 20) None; CSet (VInt 30) None]
       (__init__ epoch "score" (VInt 0) true None None).1).1.

(** [AlmaVar("age", -1, validators=[must_be_positive])]: the initial value
    is not validated. *)
Definition negative_age : St :=
  (__init__ epoch "age" (VInt (-1)) true (Some [must_be_positive]) None).1.

(** ** Listeners (C7) *)

(** [def bad_listener(var, record): raise RuntimeError("boom")] *)
Definition bad_listener : Listener :=
  mkListener 0 (fun _ _ _ _ _ => Some (RuntimeError "boom")).

(** A listener that returns normally. *)
Definition quiet_listener : Listener :=
  mkListener 1 (fun _ _ _ _ _ => None).

(** [x = AlmaVar("x", 0, on_change=[bad_listener, quiet_listener])] *)
Definition noisy : St :=
  (__init__ epoch "x" (VInt 0) true None (Some [bad_listener; quiet_listener])).1.

(** ** Copy on store (C9) *)


(** What [get] returns in [s] is the object [l] itself: after the caller
    mutates it, [get] returns the mutated object. *)
Definition aliases (l : loc) (s : St) : Prop :=
  AlmaVar.get s = (s, inr (VRef l)) /\
  forall o,
    (mutate l o ;; AlmaVar.get) s = (with_heap (<[l := o]> (st_heap s)) s, inr (VRef l)) /\
    <[l := o]> (st_heap s) !! l = Some o.




(** ** The registry (C2) *)

(** [registry.get_var(name).get()] *)
Definition get_var_get (name : string) : M AlmaRegistry.St val :=
  var ← AlmaRegistry.get_var name;
  AlmaRegistry.call var AlmaVar.get.

(** [registry = AlmaRegistry(); registry.watch("x", 0)] *)
Definition registry_x : AlmaRegistry.St :=
  (AlmaRegistry.watch "x" (VInt 0) true None None false
     (AlmaRegistry.mkSt epoch [] ∅)).1.

(** ** Further properties of [AlmaVar] *)

(** The clock never goes back. *)
Definition monotone_clock (w : World) : Prop :=
  forall n, w_clock w n <= w_clock w (S n).

(** The events that are calls of validators. *)
Definition is_validate (e : event) : bool :=
  match e with Validate _ _ => true | Notify _ _ => false end.

(** The records carry the readings [t0], [t0 + 1], ... of the clock [clock],
    one per record, and no other reading was taken. *)
Definition clock_inv (clock : nat -> Z) (t0 : nat) (s : St) : Prop :=
  w_clock (st_world s) = clock /\
  w_ticks (st_world s) = (t0 + length (_history (st_self s)))%nat /\
  forall i r, _history (st_self s) !! i = Some r -> timestamp r = clock (t0 + i)%nat.

(** [d = AlmaVar("d", data, deep_copy=False)] where [data] is the list of
    the shelf. *)
Definition shared_data : St := (__init__ shelf "d" (VRef 0) false None None).1.

(** ** Sessions on a registry *)

Inductive reg_call :=
  | RWatch (name : string) (v : val) (deep_copy : bool)
           (validators : option (list Validator)) (on_change : option (list Listener))
           (overwrite : bool)
  | RGetVar (name : string)
  | RAllVars
  | RUnregister (name : string)
  | RSnapshot
  | RMethod (var : nat) (c : call).

Definition run_reg_call (c : reg_call) : M AlmaRegistry.St unit :=
  match c with
  | RWatch name v dc vs ls overwrite => watch name v dc vs ls overwrite ;; mret tt
  | RGetVar name => AlmaRegistry.get_var name ;; mret tt
  | RAllVars => AlmaRegistry.all_vars ;; mret tt
  | RUnregister name => AlmaRegistry.unregister name
  | RSnapshot => AlmaRegistry.snapshot ;; mret tt
  | RMethod var c => AlmaRegistry.call var (run_call c)
  end.

(** The caller carries on after an exception. *)
Fixpoint reg_run (cs : list reg_call) (rs : AlmaRegistry.St) : AlmaRegistry.St :=
  match cs with
  | [] => rs
  | c :: cs' => reg_run cs' (run_reg_call c rs).1
  end.

(** Every registered name is bound to a live variable object that carries
    this name and a well-formed history. *)
Definition registry_ok (rs : AlmaRegistry.St) : Prop :=
  forall name var,
    AlmaRegistry.st_vars rs !! name = Some var ->
    exists x, AlmaRegistry.st_objs rs !! var = Some x /\
              _name x = name /\ history_ok (_history x).


(** What [var.get()] returns for the object [var] of the store. *)
Definition current_value (objs : list AlmaVar.t) (var : nat) : option val :=
  x ← objs !! var; value <$> last (_history x).

(** [reg = AlmaRegistry(); reg.watch("a", 1); reg.watch("b", 2)] *)
Definition registry_ab : AlmaRegistry.St :=
  reg_run [RWatch "a" (VInt 1) true None None false;
           RWatch "b" (VInt 2) true None None false]
          (AlmaRegistry.__init__ epoch []).

(** * Proofs *)

(** ** Facts about the heap, [view] and [deepcopy] *)

Section Heap.

Lemma val_ok_ext h ext v : val_ok h v = true -> val_ok (h ++ ext) v = true.
Proof.
  destruct v as [z|l]; simpl; [done|].
  rewrite !bool_decide_eq_true, length_app. lia.
Qed.

Lemma obj_ok_ext h ext o : obj_ok h o = true -> obj_ok (h ++ ext) o = true.
Proof.
  destruct o as [items|]; simpl; [|done].
  rewrite !forallb_forall. intros H x Hx. apply val_ok_ext. by apply H.
Qed.

Lemma heap_ok_alloc h o :
  heap_ok h = true -> obj_ok h o = true -> heap_ok (h ++ [o]) = true.
Proof.
  unfold heap_ok. intros Hh Ho. rewrite forallb_app. simpl.
  rewrite (obj_ok_ext _ _ _ Ho). rewrite andb_true_r.
  rewrite forallb_forall in *. intros x Hx. apply obj_ok_ext. by apply Hh.
Qed.

Lemma heap_ok_lookup h l items :
  heap_ok h = true -> h !! l = Some (OList items) ->
  forallb (val_ok h) items = true.
Proof.
  unfold heap_ok. rewrite forallb_forall. intros Hh Hl.
  apply (Hh (OList items)). apply list_elem_of_In. by eapply list_elem_of_lookup_2.
Qed.

(** In a well-formed heap the view of a value does not depend on objects
    allocated later. *)
Lemma view_ext k h ext v :
  heap_ok h = true -> val_ok h v = true -> view k (h ++ ext) v = view k h v.
Proof.
  intros Hh. revert v. induction k as [|k IH]; intros [z|l] Hv; simpl; try done.
  simpl in Hv. rewrite bool_decide_eq_true in Hv.
  rewrite (lookup_app_l h ext l Hv).
  destruct (h !! l) as [[items|]|] eqn:Hl; try done.
  f_equal. apply map_ext_in. intros x Hx. apply IH.
  pose proof (heap_ok_lookup _ _ _ Hh Hl) as Hall.
  rewrite forallb_forall in Hall. by apply Hall.
Qed.

Lemma isolated_agree d n h h2 v :
  isolated d n h v ->
  (forall l o, (n <= l)%nat -> h !! l = Some o -> h2 !! l = Some o) ->
  isolated d n h2 v /\ forall k, view k h2 v = view k h v.
Proof.
  revert v. induction d as [|d IH]; intros [z|l] Hiso Hag; simpl in Hiso; try done.
  - split; [done|]. by intros [|k].
  - split; [done|]. by intros [|k].
  - destruct Hiso as (Hl & items & Hlk & Hall).
    assert (Hrec : Forall (fun x => isolated d n h2 x /\
                                    forall k, view k h2 x = view k h x) items).
    { eapply Forall_impl; [exact Hall|]. intros x Hx. by apply IH. }
    split.
    + simpl. split; [done|]. exists items. split; [by apply Hag|].
      eapply Forall_impl; [exact Hrec|]. by intros x [? _].
    + intros [|k]; [done|]. simpl. rewrite Hlk, (Hag _ _ Hl Hlk). f_equal.
      apply map_ext_Forall. eapply Forall_impl; [exact Hrec|].
      intros x [_ Hx]. apply Hx.
Qed.

Lemma isolated_weaken d n m h v :
  (m <= n)%nat -> isolated d n h v -> isolated d m h v.
Proof.
  revert v. induction d as [|d IH]; intros [z|l] Hle Hiso; simpl in *; try done.
  destruct Hiso as (Hl & items & Hlk & Hall). split; [lia|].
  exists items. split; [done|]. eapply Forall_impl; [exact Hall|]. eauto.
Qed.

Lemma isolated_ext d n h ext v :
  isolated d n h v -> isolated d n (h ++ ext) v.
Proof.
  intros Hiso. apply (isolated_agree d n h); [done|].
  intros l o _ Hlk. by apply lookup_app_l_Some.
Qed.

(** A successful deep copy touches no existing object, and the copy
    shares nothing with the objects that existed. *)
Lemma copy_items_isolated f (copy : heap -> val -> option (heap * val)) :
  (forall h v h' v', copy h v = Some (h', v') ->
      (exists ext, h' = h ++ ext) /\ isolated f (length h) h' v') ->
  forall items h h' items',
    copy_items copy h items = Some (h', items') ->
    (exists ext, h' = h ++ ext) /\ Forall (isolated f (length h) h') items'.
Proof.
  intros Hcopy. induction items as [|x xs IH]; intros h h' items' Hc; simpl in Hc.
  - inversion Hc; subst. split; [by exists []; rewrite app_nil_r|done].
  - destruct (copy h x) as [[h1 x']|] eqn:Hx; [|done].
    destruct (copy_items copy h1 xs) as [[h2 xs']|] eqn:Hxs; [|done].
    inversion Hc; subst h' items'; clear Hc.
    destruct (Hcopy _ _ _ _ Hx) as ([e1 ->] & Hxi).
    destruct (IH _ _ _ Hxs) as ([e2 ->] & Hxsi).
    split; [exists (e1 ++ e2); by rewrite app_assoc|].
    constructor; [by apply isolated_ext|].
    eapply Forall_impl; [exact Hxsi|]. intros y. apply isolated_weaken.
    rewrite length_app. lia.
Qed.

Lemma deepcopy_rec_isolated f : forall h v h' v',
  deepcopy_rec f h v = Some (h', v') ->
  (exists ext, h' = h ++ ext) /\ isolated f (length h) h' v'.
Proof.
  induction f as [|f IH]; intros h [z|l] h' v' Hc; simpl in Hc; try done.
  - inversion Hc; subst. split; [by exists []; rewrite app_nil_r|done].
  - inversion Hc; subst. split; [by exists []; rewrite app_nil_r|done].
  - destruct (h !! l) as [[items|]|] eqn:Hl; try done.
    destruct (copy_items (deepcopy_rec f) h items) as [[h1 items']|] eqn:Hi; [|done].
    inversion Hc; subst h' v'; clear Hc.
    destruct (copy_items_isolated f _ IH _ _ _ _ Hi) as ([e1 ->] & Hiso).
    split; [exists (e1 ++ [OList items']); by rewrite app_assoc|].
    simpl. split; [rewrite length_app; lia|]. exists items'. split.
    + by rewrite lookup_app_r, Nat.sub_diag.
    + eapply Forall_impl; [exact Hiso|]. intros y. apply isolated_ext.
Qed.

Lemma copy_items_ok (copy : heap -> val -> option (heap * val)) :
  (forall h v h' v', heap_ok h = true -> val_ok h v = true ->
      copy h v = Some (h', v') -> copy_ok h v h' v') ->
  forall items h h' items',
    heap_ok h = true -> forallb (val_ok h) items = true ->
    copy_items copy h items = Some (h', items') ->
    (exists ext, h' = h ++ ext) /\
    heap_ok h' = true /\ forallb (val_ok h') items' = true /\
    forall k, map (view k h') items' = map (view k h) items.
Proof.
  intros Hcopy. induction items as [|x xs IH]; intros h h' items' Hh Hit Hc; simpl in Hc.
  - inversion Hc; subst. split; [by exists []; rewrite app_nil_r|]. done.
  - simpl in Hit. apply andb_true_iff in Hit as [Hx0 Hxs0].
    destruct (copy h x) as [[h1 x']|] eqn:Hx; [|done].
    destruct (copy_items copy h1 xs) as [[h2 xs']|] eqn:Hxs; [|done].
    inversion Hc; subst h' items'; clear Hc.
    destruct (Hcopy _ _ _ _ Hh Hx0 Hx) as ([e1 ->] & Hh1 & Hx1 & Hxv).
    assert (Hxs1 : forallb (val_ok (h ++ e1)) xs = true).
    { rewrite forallb_forall in *. intros y Hy. apply val_ok_ext. by apply Hxs0. }
    destruct (IH _ _ _ Hh1 Hxs1 Hxs) as ([e2 ->] & Hh2 & Hxs2 & Hxsv).
    split; [exists (e1 ++ e2); by rewrite app_assoc|].
    split; [done|]. split.
    + simpl. by rewrite (val_ok_ext _ e2 _ Hx1), Hxs2.
    + intros k. simpl. rewrite (view_ext k _ e2 x' Hh1 Hx1), Hxv, Hxsv. f_equal.
      apply map_ext_in. intros y Hy. apply view_ext; [done|].
      rewrite forallb_forall in Hxs0. by apply Hxs0.
Qed.

Lemma deepcopy_rec_ok f : forall h v h' v',
  heap_ok h = true -> val_ok h v = true ->
  deepcopy_rec f h v = Some (h', v') -> copy_ok h v h' v'.
Proof.
  induction f as [|f IH]; intros h [z|l] h' v' Hh Hv Hc; simpl in Hc; try done.
  - inversion Hc; subst. repeat split; try done. by exists []; rewrite app_nil_r.
  - inversion Hc; subst. repeat split; try done. by exists []; rewrite app_nil_r.
  - destruct (h !! l) as [[items|]|] eqn:Hl; try done.
    destruct (copy_items (deepcopy_rec f) h items) as [[h1 items']|] eqn:Hi; [|done].
    inversion Hc; subst h' v'; clear Hc.
    pose proof (heap_ok_lookup _ _ _ Hh Hl) as Hit.
    destruct (copy_items_ok _ IH _ _ _ _ Hh Hit Hi) as ([e1 ->] & Hh1 & Hit1 & Hview).
    assert (Hnew : (h ++ e1 ++ [OList items']) !! length (h ++ e1)
                   = Some (OList items')).
    { rewrite app_assoc. by rewrite lookup_app_r, Nat.sub_diag. }
    split; [exists (e1 ++ [OList items']); by rewrite app_assoc|].
    split; [by apply heap_ok_alloc|].
    split; [simpl; rewrite bool_decide_eq_true, !length_app; simpl; lia|].
    intros [|k]; [done|]. simpl. rewrite <- app_assoc, Hnew, Hl. f_equal.
    rewrite <- Hview, app_assoc. apply map_ext_in. intros y Hy.
    apply view_ext; [done|]. rewrite forallb_forall in Hit1. by apply Hit1.
Qed.

Lemma deepcopy_ok h v h' v' :
  heap_ok h = true -> val_ok h v = true ->
  deepcopy h v = Some (h', v') -> copy_ok h v h' v'.
Proof. apply deepcopy_rec_ok. Qed.

Lemma deepcopy_isolated h v h' v' :
  deepcopy h v = Some (h', v') ->
  (exists ext, h' = h ++ ext) /\ isolated recursion_limit (length h) h' v'.
Proof. apply deepcopy_rec_isolated. Qed.

End Heap.

(** ** The methods as equations *)

Lemma bind_run {A B} (m : M St A) (f : A -> M St B) (s : St) :
  (m ≫= f) s =
  match m s with
  | (s', inl e) => (s', inl e)
  | (s', inr a) => f a s'
  end.
Proof. reflexivity. Qed.

Lemma ret_run {A} (a : A) (s : St) : (mret a : M St A) s = (s, inr a).
Proof. reflexivity. Qed.

(** One step of a method body: run the first statement of a sequence. *)
Ltac mstep :=
  rewrite bind_run;
  cbv beta iota delta [get_self get_heap put_self emit now];
  cbv beta iota.

Section Methods.

Implicit Types (s : St) (v : val) (lab : option string) (es : list event).

Lemma log_nil s : log [] s = s.
Proof. destruct s as [[h c n tr] self]. unfold log; simpl. by rewrite app_nil_r. Qed.

Lemma log_log es1 es2 s : log es2 (log es1 s) = log (es1 ++ es2) s.
Proof. unfold log; simpl. by rewrite app_assoc. Qed.

Lemma call_validator_run x v s :
  call_validator x v s =
  (log [Validate (v_id x) v] s,
   match v_call x (st_heap s) v with
   | Some msg => inl (ValueError msg)
   | None => inr tt
   end).
Proof.
  unfold call_validator. do 2 mstep.
  change (st_heap (log [Validate (v_id x) v] s)) with (st_heap s).
  by destruct (v_call x (st_heap s) v).
Qed.

Lemma validators_loop vs v s :
  for_ vs (fun validate => call_validator validate v) s =
  (log (validate_all (st_heap s) v vs).1 s,
   match (validate_all (st_heap s) v vs).2 with
   | Some msg => inl (ValueError msg)
   | None => inr tt
   end).
Proof.
  revert s. induction vs as [|x xs IH]; intros s; simpl.
  - by rewrite ret_run, log_nil.
  - rewrite bind_run, call_validator_run.
    destruct (v_call x (st_heap s) v) as [msg|] eqn:Hx; simpl; [done|].
    rewrite IH.
    change (st_heap (log [Validate (v_id x) v] s)) with (st_heap s).
    destruct (validate_all (st_heap s) v xs) as [es r]; simpl.
    by rewrite log_log.
Qed.

Lemma call_listener_run l r s :
  call_listener l r s =
  (log [Notify (l_id l) r] s,
   match l_call l (st_heap s) (_name (st_self s)) (_frozen (st_self s))
                (_history (st_self s)) r with
   | Some e => inl e
   | None => inr tt
   end).
Proof.
  unfold call_listener. do 3 mstep.
  change (st_heap (log [Notify (l_id l) r] s)) with (st_heap s).
  change (st_self (log [Notify (l_id l) r] s)) with (st_self s).
  by destruct (l_call _ _ _ _ _ _).
Qed.

(** Every listener is called, whatever the earlier ones did, and the
    loop returns normally. *)
Lemma listeners_loop ls r s :
  for_ ls (fun listener =>
             try_except (call_listener listener r) (fun _ => mret tt)) s =
  (log (map (fun l => Notify (l_id l) r) ls) s, inr tt).
Proof.
  revert s. induction ls as [|l ls IH]; intros s; simpl.
  - by rewrite ret_run, log_nil.
  - rewrite bind_run. unfold try_except at 1. rewrite call_listener_run.
    destruct (l_call _ _ _ _ _ _); rewrite ?ret_run, IH, log_log; done.
Qed.

Lemma _snapshot_run v s :
  _snapshot v s =
  (with_heap (snapshot_of (_deep_copy (st_self s)) (st_heap s) v).1 s,
   inr (snapshot_of (_deep_copy (st_self s)) (st_heap s) v).2).
Proof.
  unfold _snapshot, snapshot_of. mstep.
  destruct s as [[h c n tr] self]; simpl.
  destruct (_deep_copy self); [|done].
  unfold try_except, py_deepcopy, st_heap; simpl.
  by destruct (deepcopy h v) as [[h' v']|].
Qed.

Lemma set_run v lab s :
  AlmaVar.set v lab s =
  if _frozen (st_self s)
  then (s, inl (FrozenError ("Variable '" +:+ _name (st_self s)
                             +:+ "' is frozen and cannot be mutated.")))
  else
    let self := st_self s in
    let ves := validate_all (st_heap s) v (_validators self) in
    match ves.2 with
    | Some msg => (log ves.1 s, inl (ValueError msg))
    | None =>
        let snap := snapshot_of (_deep_copy self) (st_heap s) v in
        let record :=
          mkChangeRecord (Z.of_nat (length (_history self))) snap.2
                         (w_clock (st_world s) (w_ticks (st_world s))) lab in
        (log (map (fun l => Notify (l_id l) record) (_listeners self))
           (with_self (with_history (_history self ++ [record]) self)
              (tick (with_heap snap.1 (log ves.1 s)))),
         inr tt)
    end.
Proof.
  unfold AlmaVar.set. mstep.
  destruct (_frozen (st_self s)) eqn:Hf; [done|].
  cbv zeta. rewrite bind_run, validators_loop.
  destruct (validate_all (st_heap s) v (_validators (st_self s))) as [es [msg|]];
    simpl; [done|].
  rewrite bind_run, _snapshot_run. cbv beta iota.
  do 4 mstep. rewrite listeners_loop.
  reflexivity.
Qed.

Lemma rollback_run i lab s :
  rollback i lab s =
  let self := st_self s in
  if _frozen self
  then (s, inl (FrozenError ("Variable '" +:+ _name self
                             +:+ "' is frozen and cannot be rolled back.")))
  else if bool_decide (i < 0 \/ i >= Z.of_nat (length (_history self)))
  then (s, inl (RollbackError
                  ("Rollback index " +:+ pretty i +:+ " is out of range [0, "
                   +:+ pretty (Z.of_nat (length (_history self)) - 1)
                   +:+ "] for variable '" +:+ _name self +:+ "'.")))
  else
    match _history self !! Z.to_nat i with
    | Some r =>
        let snap := snapshot_of (_deep_copy self) (st_heap s) (value r) in
        AlmaVar.set snap.2 (Some (py_or lab ("rollback to index " +:+ pretty i)))
                    (with_heap snap.1 s)
    | None => (s, inl IndexError)
    end.
Proof.
  unfold rollback. mstep. cbv zeta.
  destruct (_frozen (st_self s)); [done|].
  case_bool_decide; [done|].
  rewrite bind_run.
  destruct (_history (st_self s) !! Z.to_nat i) as [r|]; [|done].
  rewrite ret_run. cbv beta iota. by rewrite bind_run, _snapshot_run.
Qed.

Lemma get_run s :
  AlmaVar.get s =
  (s, match last (_history (st_self s)) with
      | Some r => inr (value r)
      | None => inl IndexError
      end).
Proof. unfold AlmaVar.get. mstep. by destruct (last _). Qed.

Lemma last_change_run s :
  last_change s =
  (s, match last (_history (st_self s)) with
      | Some r => inr r
      | None => inl IndexError
      end).
Proof. unfold last_change. mstep. by destruct (last _). Qed.

Lemma history_run s : history s = (s, inr (_history (st_self s))).
Proof. reflexivity. Qed.

Lemma is_frozen_run s : is_frozen s = (s, inr (_frozen (st_self s))).
Proof. reflexivity. Qed.

Lemma diff_run s :
  diff s =
  (s, diff_loop (_history (st_self s))
                (seq 1 (length (_history (st_self s)) - 1)) []).
Proof. unfold diff. rewrite bind_run, history_run. cbv beta iota. by destruct (diff_loop _ _ _). Qed.

Lemma __init___run w name v dc vs ls :
  __init__ w name v dc vs ls =
  let snap := snapshot_of dc (w_heap w) v in
  let record := mkChangeRecord 0 snap.2 (w_clock w (w_ticks w)) (Some "initial") in
  (mkSt (mkWorld snap.1 (w_clock w) (S (w_ticks w)) (w_trace w))
        (mk name dc (default [] vs) (default [] ls) false [record]),
   inr tt).
Proof.
  unfold __init__. rewrite bind_run, _snapshot_run. cbv beta iota. by do 2 mstep.
Qed.

End Methods.

(** ** The history invariant *)

Section Invariant.

Implicit Types (s : St) (v : val) (lab : option string).

(** [set] either raises and leaves the object as it was, or appends one
    record, numbered by its position and labelled as asked. *)
Lemma set_cases v lab s s' r :
  AlmaVar.set v lab s = (s', r) ->
  (succeeded r = false /\ st_self s' = st_self s) \/
  (succeeded r = true /\ _frozen (st_self s) = false /\
   exists rec, st_self s' = with_history (_history (st_self s) ++ [rec]) (st_self s) /\
               index rec = Z.of_nat (length (_history (st_self s))) /\
               label rec = lab).
Proof.
  rewrite set_run. destruct (_frozen (st_self s)) eqn:Hf.
  { intros [= <- <-]. by left. }
  cbv zeta.
  destruct (validate_all (st_heap s) v (_validators (st_self s))) as [es [msg|]]; simpl.
  { intros [= <- <-]. by left. }
  intros [= <- <-]. right. split; [done|]. split; [done|]. eexists. by split.
Qed.

Lemma rollback_cases i lab s s' r :
  rollback i lab s = (s', r) ->
  (succeeded r = false /\ st_self s' = st_self s) \/
  (succeeded r = true /\ _frozen (st_self s) = false /\
   0 <= i < Z.of_nat (length (_history (st_self s))) /\
   exists rec, st_self s' = with_history (_history (st_self s) ++ [rec]) (st_self s) /\
               index rec = Z.of_nat (length (_history (st_self s))) /\
               label rec = Some (py_or lab ("rollback to index " +:+ pretty i))).
Proof.
  rewrite rollback_run. cbv zeta. destruct (_frozen (st_self s)) eqn:Hf.
  { intros [= <- <-]. by left. }
  case_bool_decide as Hi.
  { intros [= <- <-]. by left. }
  destruct (_history (st_self s) !! Z.to_nat i) as [r0|].
  2:{ intros [= <- <-]. by left. }
  intros Hset. apply set_cases in Hset. simpl in Hset.
  destruct Hset as [[? ?]|(? & ? & rec & ? & ? & ?)]; [by left|].
  right. split; [done|]. split; [done|]. split; [lia|]. by exists rec.
Qed.

Lemma history_ok_snoc hist rec :
  history_ok hist -> index rec = Z.of_nat (length hist) -> history_ok (hist ++ [rec]).
Proof.
  intros (Hlen & H0 & Hidx) Hrec. split; [rewrite length_app; simpl; lia|]. split.
  - rewrite lookup_app_l by lia. done.
  - intros i r Hi. destruct (decide (i < length hist)%nat) as [Hlt|Hge].
    + rewrite lookup_app_l in Hi by done. by apply Hidx.
    + rewrite lookup_app_r in Hi by lia.
      destruct (i - length hist)%nat as [|j] eqn:Hj; simpl in Hi; [|done].
      injection Hi as <-. rewrite Hrec. f_equal. lia.
Qed.

(** One call keeps the invariant, and the history grows by one record
    exactly when the call is a successful [set] or [rollback]. *)
Lemma run_call_history c s s' r :
  run_call c s = (s', r) ->
  history_ok (_history (st_self s)) ->
  history_ok (_history (st_self s')) /\
  length (_history (st_self s')) =
    (length (_history (st_self s)) + if appends c && succeeded r then 1 else 0)%nat.
Proof.
  intros Hrun Hok.
  assert (Hset : forall s' (r : exn + unit),
    (succeeded r = false /\ st_self s' = st_self s) \/
    (succeeded r = true /\
     exists rec, st_self s' = with_history (_history (st_self s) ++ [rec]) (st_self s) /\
                 index rec = Z.of_nat (length (_history (st_self s)))) ->
    history_ok (_history (st_self s')) /\
    length (_history (st_self s')) =
      (length (_history (st_self s)) + if succeeded r then 1 else 0)%nat).
  { intros s1 r1 [[-> ->]|(-> & rec & -> & Hrec)]; simpl.
    - split; [done|lia].
    - split; [by apply history_ok_snoc|]. rewrite length_app. simpl. lia. }
  destruct c; simpl in Hrun; simpl appends; cbv iota beta;
    try (injection Hrun as <- <-; simpl; split; [done|lia]).
  - apply Hset. apply set_cases in Hrun.
    destruct Hrun as [?|(? & ? & rec & ? & ? & ?)]; [by left|].
    right. split; [done|]. by exists rec.
  - apply Hset. apply rollback_cases in Hrun.
    destruct Hrun as [?|(? & ? & ? & rec & ? & ? & ?)]; [by left|].
    right. split; [done|]. by exists rec.
  - apply Hset. apply rollback_cases in Hrun.
    destruct Hrun as [?|(? & ? & ? & rec & ? & ? & ?)]; [by left|].
    right. split; [done|]. by exists rec.
  - rewrite bind_run, get_run in Hrun. cbv beta iota in Hrun.
    destruct (last _); injection Hrun as <- <-; split; (done || lia).
  - rewrite bind_run, last_change_run in Hrun. cbv beta iota in Hrun.
    destruct (last _); injection Hrun as <- <-; split; (done || lia).
  - rewrite bind_run, diff_run in Hrun. cbv beta iota in Hrun.
    destruct (diff_loop _ _ _); injection Hrun as <- <-; split; (done || lia).
Qed.

Lemma run_history cs : forall s,
  history_ok (_history (st_self s)) ->
  history_ok (_history (st_self (run cs s).1)) /\
  length (_history (st_self (run cs s).1)) =
    (length (_history (st_self s)) + (run cs s).2)%nat.
Proof.
  induction cs as [|c cs IH]; intros s Hok; simpl.
  - split; [done|lia].
  - destruct (run_call c s) as [s1 r] eqn:Hc.
    destruct (run_call_history _ _ _ _ Hc Hok) as [Hok1 Hlen1].
    destruct (IH s1 Hok1) as [Hok2 Hlen2].
    destruct (run cs s1) as [s2 k]; simpl in *. split; [done|]. lia.
Qed.

Lemma __init___history w name v dc vs ls :
  history_ok (_history (st_self (__init__ w name v dc vs ls).1)) /\
  length (_history (st_self (__init__ w name v dc vs ls).1)) = 1%nat.
Proof.
  rewrite __init___run. cbv zeta. simpl. split; [|done].
  split; [done|]. split; [done|]. by intros [|i] r [= <-].
Qed.

Lemma reachable_history_ok s : reachable s -> history_ok (_history (st_self s)).
Proof.
  intros (w & name & v & dc & vs & ls & cs & ->).
  apply run_history, __init___history.
Qed.

End Invariant.


(** ** Validation (C1) *)

Section Validation.

Lemma validate_all_reject h v pre vd post msg :
  Forall (fun x => v_call x h v = None) pre ->
  v_call vd h v = Some msg ->
  validate_all h v (pre ++ vd :: post) =
  (map (fun x => Validate (v_id x) v) (pre ++ [vd]), Some msg).
Proof.
  intros Hpre Hvd. induction Hpre as [|x pre Hx _ IH]; simpl.
  - by rewrite Hvd.
  - by rewrite Hx, IH.
Qed.

Lemma validate_all_accept h v vs :
  Forall (fun x => v_call x h v = None) vs ->
  validate_all h v vs = (map (fun x => Validate (v_id x) v) vs, None).
Proof.
  intros Hvs. induction Hvs as [|x vs Hx _ IH]; simpl; [done|].
  by rewrite Hx, IH.
Qed.

End Validation.

(** C1 (amended): on a variable that is not frozen, [set] runs the
    validators in registration order, stops at the first one that rejects
    and raises its error with its message; then no record is appended, no
    listener is called and [get] returns what it returned before. *)
Theorem set_validation_failure s v lab pre vd post msg :
  _frozen (st_self s) = false ->
  _validators (st_self s) = pre ++ vd :: post ->
  Forall (fun x => v_call x (st_heap s) v = None) pre ->
  v_call vd (st_heap s) v = Some msg ->
  rejected_by s v lab pre vd msg.
Proof.
  intros Hf Hvs Hpre Hvd. unfold rejected_by. rewrite set_run, Hf. cbv zeta.
  rewrite Hvs, (validate_all_reject _ _ _ _ _ _ Hpre Hvd). simpl.
  repeat split; try done. by rewrite !get_run.
Qed.

Lemma set_validation_failure_witness :
  rejected_by age (VInt (-1)) None [] must_be_positive "negative".
Proof.
  apply (set_validation_failure age (VInt (-1)) None [] must_be_positive [] "negative").
  - reflexivity.
  - reflexivity.
  - constructor.
  - reflexivity.
Defined.

(** C1 as stated fails on a frozen variable: the frozen check comes first,
    no validator is called and the error is [FrozenError]. *)
Lemma set_validation_frozen_counterexample :
  _validators (st_self age_frozen) = [] ++ must_be_positive :: [] /\
  Forall (fun x => v_call x (st_heap age_frozen) (VInt (-1)) = None) [] /\
  v_call must_be_positive (st_heap age_frozen) (VInt (-1)) = Some "negative" /\
  AlmaVar.set (VInt (-1)) None age_frozen
    = (age_frozen, inl (FrozenError "Variable 'age' is frozen and cannot be mutated.")) /\
  ~ rejected_by age_frozen (VInt (-1)) None [] must_be_positive "negative".
Proof.
  split; [reflexivity|]. split; [constructor|]. split; [reflexivity|].
  split; [reflexivity|].
  unfold rejected_by. rewrite set_run. simpl. intros [H _]. discriminate H.
Qed.

(** ** [diff] (C8) *)

Section Diff.

(** The loop of [diff] computes one entry per adjacent pair. *)
Lemma diff_loop_seq records : forall len start acc,
  (1 <= start)%nat -> (start + len <= length records)%nat ->
  diff_loop records (seq start len) acc =
  inr (acc ++ zip_with diff_entry (take len (drop (start - 1) records))
                                  (take len (drop start records))).
Proof.
  induction len as [|len IH]; intros start acc H1 Hlen; simpl.
  - by rewrite app_nil_r.
  - destruct (lookup_lt_is_Some_2 records (start - 1)) as [prev Hprev]; [lia|].
    destruct (lookup_lt_is_Some_2 records start) as [curr Hcurr]; [lia|].
    rewrite Hprev, Hcurr, IH by lia.
    rewrite (drop_S _ _ _ Hprev), (drop_S _ _ _ Hcurr). simpl.
    replace (S (start - 1)) with start by lia.
    rewrite Nat.sub_0_r, (drop_S _ _ _ Hcurr), <- app_assoc. done.
Qed.

Lemma diff_loop_pairs records :
  diff_loop records (seq 1 (length records - 1)) [] =
  inr (zip_with diff_entry records (tail records)).
Proof.
  destruct records as [|r0 records]; [done|].
  rewrite diff_loop_seq by (simpl; lia). f_equal.
  change (length (r0 :: records) - 1)%nat with (length records - 0)%nat.
  rewrite Nat.sub_0_r.
  change (drop (1 - 1) (r0 :: records)) with (r0 :: records).
  change (drop 1 (r0 :: records)) with records.
  rewrite (take_ge records) by lia.
  apply (zip_with_take_l diff_entry (r0 :: records) records).
Qed.

Lemma round_half_even_Z q z : (q == inject_Z z)%Q -> round_half_even q = z.
Proof.
  intros Hq. unfold round_half_even.
  rewrite (Qfloor_comp _ _ Hq), Qfloor_Z.
  assert (H0 : (q - inject_Z z == 0)%Q) by (rewrite Hq; ring).
  by rewrite (Qcompare_comp _ _ H0 (1 # 2) (1 # 2) (Qeq_refl _)).
Qed.

(** Timestamps have microsecond resolution, so rounding the elapsed
    milliseconds to 3 decimal places loses nothing. *)
Lemma round3_elapsed (delta : Z) :
  round3 (total_seconds delta * 1000) = (delta # 1000)%Q.
Proof.
  unfold round3. f_equal. apply round_half_even_Z.
  unfold total_seconds, Qeq, Qmult, inject_Z; simpl. lia.
Qed.


End Diff.





(** ** Frozen variables (C6, C10) *)

(** C10: on a frozen variable [rollback] raises [FrozenError] for every
    index, in range or not: the frozen check comes before the range check.
    Nothing changes. *)
Theorem rollback_frozen_before_range s i lab :
  _frozen (st_self s) = true ->
  rollback i lab s =
  (s, inl (FrozenError ("Variable '" +:+ _name (st_self s)
                        +:+ "' is frozen and cannot be rolled back."))).
Proof. intros Hf. rewrite rollback_run. cbv zeta. by rewrite Hf. Qed.

Lemma rollback_frozen_before_range_witness :
  rollback 7 None age_frozen =
  (age_frozen, inl (FrozenError "Variable 'age' is frozen and cannot be rolled back.")) /\
  rollback (-1) None age_frozen =
  (age_frozen, inl (FrozenError "Variable 'age' is frozen and cannot be rolled back.")).
Proof.
  split.
  - apply (rollback_frozen_before_range age_frozen 7 None). reflexivity.
  - apply (rollback_frozen_before_range age_frozen (-1) None). reflexivity.
Defined.

(** C6: on a frozen variable every [set] and every [rollback] raises
    [FrozenError] and changes nothing, while [get], [history],
    [last_change], [diff] and [is_frozen] return normally. *)
Theorem frozen_blocks_mutation s :
  reachable s ->
  _frozen (st_self s) = true ->
  (forall v lab, exists msg, AlmaVar.set v lab s = (s, inl (FrozenError msg))) /\
  (forall i lab, exists msg, rollback i lab s = (s, inl (FrozenError msg))) /\
  (exists r, last (_history (st_self s)) = Some r /\
             AlmaVar.get s = (s, inr (value r)) /\
             last_change s = (s, inr r)) /\
  history s = (s, inr (_history (st_self s))) /\
  (exists d, diff s = (s, inr d)) /\
  is_frozen s = (s, inr true).
Proof.
  intros Hok%reachable_history_ok Hf.
  split; [|split; [|split; [|split; [|split]]]].
  - intros v lab. eexists. by rewrite set_run, Hf.
  - intros i lab. eexists. rewrite rollback_run. cbv zeta. by rewrite Hf.
  - destruct Hok as (Hlen & _).
    destruct (last (_history (st_self s))) as [r|] eqn:Hlast.
    + exists r. by rewrite get_run, last_change_run, Hlast.
    + apply last_None in Hlast. rewrite Hlast in Hlen. simpl in Hlen. lia.
  - apply history_run.
  - eexists. by rewrite diff_run, diff_loop_pairs.
  - by rewrite is_frozen_run, Hf.
Qed.

Lemma frozen_blocks_mutation_witness :
  (forall v lab, exists msg, AlmaVar.set v lab age_frozen = (age_frozen, inl (FrozenError msg))) /\
  (forall i lab, exists msg, rollback i lab age_frozen = (age_frozen, inl (FrozenError msg))) /\
  (exists r, last (_history (st_self age_frozen)) = Some r /\
             AlmaVar.get age_frozen = (age_frozen, inr (value r)) /\
             last_change age_frozen = (age_frozen, inr r)) /\
  history age_frozen = (age_frozen, inr (_history (st_self age_frozen))) /\
  (exists d, diff age_frozen = (age_frozen, inr d)) /\
  is_frozen age_frozen = (age_frozen, inr true).
Proof.
  apply (frozen_blocks_mutation age_frozen).
  - exists epoch, "age"%string, (VInt 0), true, (Some [must_be_positive]), None, [CFreeze].
    reflexivity.
  - reflexivity.
Defined.

(** ** Successful [set] and [rollback] *)

Section Success.

Implicit Types (s : St) (v : val) (lab : option string).

(** A snapshot looks like the value it was taken from, and leaves the
    objects that existed untouched. *)
Lemma snapshot_of_ok dc h v :
  heap_ok h = true -> val_ok h v = true ->
  (exists ext, (snapshot_of dc h v).1 = h ++ ext) /\
  heap_ok (snapshot_of dc h v).1 = true /\
  val_ok (snapshot_of dc h v).1 (snapshot_of dc h v).2 = true /\
  forall k, view k (snapshot_of dc h v).1 (snapshot_of dc h v).2 = view k h v.
Proof.
  intros Hh Hv. unfold snapshot_of.
  assert (Hsame : (exists ext, h = h ++ ext) /\ heap_ok h = true /\
                  val_ok h v = true /\ forall k, view k h v = view k h v).
  { split; [by exists []; rewrite app_nil_r|done]. }
  destruct dc; [|done].
  destruct (deepcopy h v) as [[h' v']|] eqn:Hc; [|done].
  destruct (deepcopy_ok _ _ _ _ Hh Hv Hc) as (? & ? & ? & ?). done.
Qed.

(** What a [set] that returns has done. *)
Lemma set_inr v lab s s' :
  AlmaVar.set v lab s = (s', inr tt) ->
  let self := st_self s in
  let snap := snapshot_of (_deep_copy self) (st_heap s) v in
  let rec := mkChangeRecord (Z.of_nat (length (_history self))) snap.2
                            (w_clock (st_world s) (w_ticks (st_world s))) lab in
  _frozen self = false /\
  validate_all (st_heap s) v (_validators self) =
    (map (fun x => Validate (v_id x) v) (_validators self), None) /\
  st_self s' = with_history (_history self ++ [rec]) self /\
  st_heap s' = snap.1 /\
  st_trace s' = st_trace s ++ map (fun x => Validate (v_id x) v) (_validators self)
                          ++ map (fun l => Notify (l_id l) rec) (_listeners self).
Proof.
  rewrite set_run. destruct (_frozen (st_self s)) eqn:Hf; [done|]. cbv zeta.
  destruct (validate_all (st_heap s) v (_validators (st_self s))) as [es r] eqn:Hv.
  assert (Hes : r = None -> es = map (fun x => Validate (v_id x) v) (_validators (st_self s))).
  { clear -Hv. revert es r Hv. generalize (st_heap s) as h.
    induction (_validators (st_self s)) as [|x xs IH]; intros h es r Hv ->; simpl in Hv.
    - by injection Hv as <-.
    - destruct (v_call x h v); [done|].
      destruct (validate_all h v xs) as [es' r'] eqn:Hxs.
      injection Hv as <- ->. simpl. f_equal. by eapply IH. }
  destruct r as [msg|]; simpl; [done|]. rewrite (Hes eq_refl).
  intros [= <-]. unfold st_trace. simpl. by rewrite app_assoc.
Qed.

(** [set] returns when the variable is not frozen and every validator
    accepts the value. *)
Lemma set_accepts v lab s :
  _frozen (st_self s) = false ->
  Forall (fun x => v_call x (st_heap s) v = None) (_validators (st_self s)) ->
  exists s', AlmaVar.set v lab s = (s', inr tt).
Proof.
  intros Hf Hv. rewrite set_run, Hf. cbv zeta.
  rewrite (validate_all_accept _ _ _ Hv). simpl. by eexists.
Qed.

(** What a [rollback] that returns has done: the value at the index was
    snapshotted, and the snapshot went through [set]. *)
Lemma rollback_inr i lab s s' :
  rollback i lab s = (s', inr tt) ->
  exists r0,
    let self := st_self s in
    let snap := snapshot_of (_deep_copy self) (st_heap s) (value r0) in
    _frozen self = false /\
    0 <= i < Z.of_nat (length (_history self)) /\
    _history self !! Z.to_nat i = Some r0 /\
    AlmaVar.set snap.2 (Some (py_or lab ("rollback to index " +:+ pretty i)))
                (with_heap snap.1 s) = (s', inr tt).
Proof.
  rewrite rollback_run. cbv zeta. destruct (_frozen (st_self s)) eqn:Hf; [done|].
  case_bool_decide as Hi; [done|].
  destruct (_history (st_self s) !! Z.to_nat i) as [r0|] eqn:Hr0; [|done].
  intros Hset. exists r0. repeat split; try done; lia.
Qed.

Lemma rollback_accepts i lab s r0 :
  _frozen (st_self s) = false ->
  _history (st_self s) !! Z.to_nat i = Some r0 ->
  0 <= i ->
  (let snap := snapshot_of (_deep_copy (st_self s)) (st_heap s) (value r0) in
   Forall (fun x => v_call x snap.1 snap.2 = None) (_validators (st_self s))) ->
  exists s', rollback i lab s = (s', inr tt).
Proof.
  intros Hf Hr0 Hi Hv. rewrite rollback_run. cbv zeta. rewrite Hf.
  apply lookup_lt_Some in Hr0 as Hlt.
  rewrite bool_decide_eq_false_2 by lia. rewrite Hr0.
  by apply set_accepts.
Qed.

(** After a successful [rollback i] one record was appended, and it holds
    a value that looks like the one recorded at [i]. *)
Lemma rollback_restores i lab s s' :
  heap_ok (st_heap s) = true ->
  Forall (fun r => val_ok (st_heap s) (value r) = true) (_history (st_self s)) ->
  rollback i lab s = (s', inr tt) ->
  exists r0 rec,
    _history (st_self s) !! Z.to_nat i = Some r0 /\
    0 <= i < Z.of_nat (length (_history (st_self s))) /\
    _history (st_self s') = _history (st_self s) ++ [rec] /\
    label rec = Some (py_or lab ("rollback to index " +:+ pretty i)) /\
    AlmaVar.get s' = (s', inr (value rec)) /\
    forall k, view k (st_heap s') (value rec) = view k (st_heap s) (value r0).
Proof.
  intros Hh Hvals (r0 & Hf & Hi & Hr0 & Hset)%rollback_inr.
  apply set_inr in Hset as (_ & _ & Hself & Hheap & _). simpl in Hself, Hheap.
  eexists r0, _. split; [done|]. split; [done|].
  rewrite get_run, Hself. simpl. rewrite last_snoc. simpl.
  split; [done|]. split; [done|]. split; [done|].
  intros k. rewrite Hheap.
  assert (Hv0 : val_ok (st_heap s) (value r0) = true).
  { rewrite Forall_forall in Hvals. apply Hvals. by eapply list_elem_of_lookup_2. }
  destruct (snapshot_of_ok (_deep_copy (st_self s)) _ _ Hh Hv0) as (_ & Hh1 & Hv1 & Hview1).
  destruct (snapshot_of_ok (_deep_copy (st_self s)) _ _ Hh1 Hv1) as (_ & _ & _ & Hview2).
  by rewrite Hview2, Hview1.
Qed.

End Success.

(** ** Rollback (C4, C5) *)

(** C4: a [rollback(i)] that returns, called without a label, has an index
    within the history, appends exactly one record to the history (every
    earlier record stays), labels it ["rollback to index i"], and [get]
    then returns a value equal to the one recorded at index [i]. *)
Theorem rollback_appends_record s i s' :
  heap_ok (st_heap s) = true ->
  Forall (fun r => val_ok (st_heap s) (value r) = true) (_history (st_self s)) ->
  rollback i None s = (s', inr tt) ->
  exists r0 rec,
    0 <= i < Z.of_nat (length (_history (st_self s))) /\
    _history (st_self s) !! Z.to_nat i = Some r0 /\
    _history (st_self s') = _history (st_self s) ++ [rec] /\
    label rec = Some ("rollback to index " +:+ pretty i) /\
    AlmaVar.get s' = (s', inr (value rec)) /\
    forall k, view k (st_heap s') (value rec) = view k (st_heap s) (value r0).
Proof.
  intros Hh Hv Hrb.
  destruct (rollback_restores i None s s' Hh Hv Hrb) as (r0 & rec & ? & ? & ? & ? & ? & ?).
  by exists r0, rec.
Qed.

Lemma rollback_appends_record_witness :
  exists r0 rec,
    0 <= 0 < Z.of_nat (length (_history (st_self data_var))) /\
    _history (st_self data_var) !! Z.to_nat 0 = Some r0 /\
    _history (st_self (rollback 0 None data_var).1) = _history (st_self data_var) ++ [rec] /\
    label rec = Some ("rollback to index " +:+ pretty 0) /\
    AlmaVar.get (rollback 0 None data_var).1 = ((rollback 0 None data_var).1, inr (value rec)) /\
    forall k, view k (st_heap (rollback 0 None data_var).1) (value rec)
              = view k (st_heap data_var) (value r0).
Proof.
  apply (rollback_appends_record data_var 0 (rollback 0 None data_var).1).
  - reflexivity.
  - repeat constructor.
  - reflexivity.
Defined.

(** The scenario of the module's docstring and of the specification. *)
Example score_scenario :
  (AlmaVar.get score).2 = inr (VInt 30) /\
  length (_history (st_self score)) = 4%nat /\
  ((rollback 1 None ;; AlmaVar.get) score).2 = inr (VInt 10) /\
  ((rollback 1 None ;; last_change) score).2
    = inr (mkChangeRecord 4 (VInt 10) 6000 (Some "rollback to index 1")).
Proof. repeat split. Qed.

(** C5 (amended): on a variable that is not frozen, with a history of
    length [n], [rollback(-1)] and [rollback(n)] raise [RollbackError] and
    change nothing; [rollback(n - 1)] returns and leaves [get] unchanged
    value-wise provided every registered validator accepts the current
    value, which [rollback] passes through [set]. *)
Theorem rollback_boundary_unfrozen s :
  reachable s ->
  _frozen (st_self s) = false ->
  heap_ok (st_heap s) = true ->
  Forall (fun r => val_ok (st_heap s) (value r) = true) (_history (st_self s)) ->
  (forall cur, last (_history (st_self s)) = Some cur ->
     let snap := snapshot_of (_deep_copy (st_self s)) (st_heap s) (value cur) in
     Forall (fun x => v_call x snap.1 snap.2 = None) (_validators (st_self s))) ->
  rollback_boundary s.
Proof.
  intros (Hlen & _)%reachable_history_ok Hf Hh Hvals Hacc.
  unfold rollback_boundary. cbv zeta. split; [|split].
  - intros lab. eexists. rewrite rollback_run. cbv zeta. rewrite Hf.
    by rewrite bool_decide_eq_true_2 by lia.
  - intros lab. eexists. rewrite rollback_run. cbv zeta. rewrite Hf.
    by rewrite bool_decide_eq_true_2 by lia.
  - intros lab.
    destruct (last (_history (st_self s))) as [cur|] eqn:Hlast.
    2:{ apply last_None in Hlast. rewrite Hlast in Hlen. simpl in Hlen. lia. }
    assert (Hcur : _history (st_self s) !!
                     Z.to_nat (Z.of_nat (length (_history (st_self s))) - 1) = Some cur).
    { rewrite last_lookup in Hlast. rewrite <- Hlast. f_equal. lia. }
    destruct (rollback_accepts _ lab s cur Hf Hcur ltac:(lia) (Hacc cur eq_refl))
      as [s' Hrb].
    exists s'. split; [done|].
    destruct (rollback_restores _ _ _ _ Hh Hvals Hrb) as (r0 & rec & Hr0 & _ & _ & _ & Hget & Hview).
    rewrite Hcur in Hr0. injection Hr0 as <-.
    exists (value cur), (value rec). by rewrite get_run, Hlast.
Qed.

Lemma rollback_boundary_unfrozen_witness : rollback_boundary data_var.
Proof.
  apply (rollback_boundary_unfrozen data_var).
  - exists shelf, "d"%string, (VRef 0), true, None, None, [CSet (VInt 5) None].
    reflexivity.
  - reflexivity.
  - reflexivity.
  - repeat constructor.
  - intros cur _. constructor.
Defined.

(** C5 as stated fails when a validator rejects the current value (here
    the initial value, which the constructor does not validate):
    [rollback(n - 1)] raises the validator's error. *)
Lemma rollback_boundary_counterexample :
  reachable negative_age /\
  _frozen (st_self negative_age) = false /\
  rollback (Z.of_nat (length (_history (st_self negative_age))) - 1) None negative_age
    = (log [Validate 0 (VInt (-1))] negative_age, inl (ValueError "negative")) /\
  ~ rollback_boundary negative_age.
Proof.
  split; [|split; [|split]].
  - by exists epoch, "age"%string, (VInt (-1)), true, (Some [must_be_positive]), None, [].
  - reflexivity.
  - reflexivity.
  - intros (_ & _ & H). destruct (H None) as (s' & Hrb & _). discriminate Hrb.
Qed.

(** ** Listeners (C7) *)

(** C7: when [set] passes the frozen check and the validators, it
    returns normally whatever the listeners do: no listener's exception
    reaches the caller, every listener is called, in registration order,
    with the new record, the record stays appended and [get] returns the
    value that was set. *)
Theorem listener_failures_discarded s v lab :
  _frozen (st_self s) = false ->
  Forall (fun x => v_call x (st_heap s) v = None) (_validators (st_self s)) ->
  heap_ok (st_heap s) = true ->
  val_ok (st_heap s) v = true ->
  exists s' rec,
    AlmaVar.set v lab s = (s', inr tt) /\
    st_trace s' = st_trace s
                  ++ map (fun x => Validate (v_id x) v) (_validators (st_self s))
                  ++ map (fun l => Notify (l_id l) rec) (_listeners (st_self s)) /\
    _history (st_self s') = _history (st_self s) ++ [rec] /\
    AlmaVar.get s' = (s', inr (value rec)) /\
    forall k, view k (st_heap s') (value rec) = view k (st_heap s) v.
Proof.
  intros Hf Hacc Hh Hv.
  destruct (set_accepts v lab s Hf Hacc) as [s' Hset].
  pose proof (set_inr _ _ _ _ Hset) as (_ & _ & Hself & Hheap & Htrace).
  simpl in Hself, Hheap, Htrace.
  eexists s', _. split; [done|]. split; [exact Htrace|].
  rewrite get_run, Hself, Hheap. simpl. rewrite last_snoc. simpl.
  split; [done|]. split; [done|].
  by destruct (snapshot_of_ok (_deep_copy (st_self s)) _ _ Hh Hv) as (_ & _ & _ & ?).
Qed.

Lemma listener_failures_discarded_witness :
  exists s' rec,
    AlmaVar.set (VInt 1) None noisy = (s', inr tt) /\
    st_trace s' = st_trace noisy
                  ++ map (fun x => Validate (v_id x) (VInt 1)) (_validators (st_self noisy))
                  ++ map (fun l => Notify (l_id l) rec) (_listeners (st_self noisy)) /\
    _history (st_self s') = _history (st_self noisy) ++ [rec] /\
    AlmaVar.get s' = (s', inr (value rec)) /\
    forall k, view k (st_heap s') (value rec) = view k (st_heap noisy) (VInt 1).
Proof.
  apply (listener_failures_discarded noisy (VInt 1) None).
  - reflexivity.
  - constructor.
  - reflexivity.
  - reflexivity.
Defined.

(** The scenario of the tests: the first listener raises, the second one
    is still called, and [get] returns 1. *)
Example noisy_set_1 :
  (AlmaVar.set (VInt 1) None ;; AlmaVar.get) noisy =
  ((AlmaVar.set (VInt 1) None noisy).1, inr (VInt 1)) /\
  st_trace (AlmaVar.set (VInt 1) None noisy).1 =
  [Notify 0 (mkChangeRecord 1 (VInt 1) 1500 None);
   Notify 1 (mkChangeRecord 1 (VInt 1) 1500 None)].
Proof. split; reflexivity. Qed.

(** ** Copy on store (C9) *)

Section CopyOnStore.

Lemma mutate_get_run l o s :
  (mutate l o ;; AlmaVar.get) s =
  (with_heap (<[l := o]> (st_heap s)) s,
   match last (_history (st_self s)) with
   | Some r => inr (value r)
   | None => inl IndexError
   end).
Proof. by rewrite bind_run; unfold mutate; cbv beta iota; rewrite get_run. Qed.


End CopyOnStore.



(** The two tests on copies: the caller overwrites its list after handing
    it to the constructor. *)
Example deep_copy_isolates_mutable_values :
  let s := (mutate 0 (OList [VInt 99; VInt 2]) (__init__ shelf "d" (VRef 0) true None None).1).1 in
  view 2 (st_heap s) (VRef 0) = TList [TAtom (AInt 99); TAtom (AInt 2)] /\
  exists g, (AlmaVar.get s).2 = inr g /\
            view 2 (st_heap s) g = TList [TAtom (AInt 1); TAtom (AInt 2)].
Proof. split; [reflexivity|]. eexists. split; reflexivity. Qed.

Example no_deep_copy_shares_reference :
  let s := (mutate 0 (OList [VInt 99; VInt 2]) (__init__ shelf "d" (VRef 0) false None None).1).1 in
  exists g, (AlmaVar.get s).2 = inr g /\
            view 2 (st_heap s) g = TList [TAtom (AInt 99); TAtom (AInt 2)].
Proof. eexists. split; reflexivity. Qed.


(** ** The registry (C2) *)

Section Registry.

Lemma reg_bind_run {A B} (m : M AlmaRegistry.St A) (f : A -> M AlmaRegistry.St B) rs :
  (m ≫= f) rs =
  match m rs with
  | (rs', inl e) => (rs', inl e)
  | (rs', inr a) => f a rs'
  end.
Proof. reflexivity. Qed.

(** [watch] when the name is free or [overwrite] is set: a new variable
    object is constructed and the name is bound to it. *)
Lemma watch_run_new name v dc vs ls overwrite rs :
  bool_decide (is_Some (AlmaRegistry.st_vars rs !! name)) && negb overwrite = false ->
  AlmaRegistry.watch name v dc vs ls overwrite rs =
  (let vs' := (__init__ (AlmaRegistry.st_world rs) name v dc vs ls).1 in
   AlmaRegistry.mkSt (st_world vs')
     (AlmaRegistry.st_objs rs ++ [st_self vs'])
     (<[name := length (AlmaRegistry.st_objs rs)]> (AlmaRegistry.st_vars rs)),
   inr (length (AlmaRegistry.st_objs rs))).
Proof.
  intros Hfree. unfold AlmaRegistry.watch.
  rewrite reg_bind_run. unfold AlmaRegistry.get_vars at 1. cbv beta iota.
  rewrite Hfree. rewrite reg_bind_run. unfold AlmaRegistry.new_AlmaVar.
  rewrite __init___run. cbv beta iota zeta. simpl.
  reflexivity.
Qed.

End Registry.

(** C2: when [name] is registered, [watch(name, v)] without [overwrite]
    raises the registry's error and changes nothing; with [overwrite=True]
    it returns a newly constructed variable object, binds [name] to it
    (the old object is left as it was), and [get_var(name).get()] then
    returns a value equal to [v]. *)
Theorem watch_duplicate_name rs name v dc vs ls var :
  AlmaRegistry.st_vars rs !! name = Some var ->
  heap_ok (w_heap (AlmaRegistry.st_world rs)) = true ->
  val_ok (w_heap (AlmaRegistry.st_world rs)) v = true ->
  AlmaRegistry.watch name v dc vs ls false rs =
    (rs, inl (AlmaError ("Variable '" +:+ name +:+ "' is already registered. "
                         +:+ "Use overwrite=True to replace it."))) /\
  exists rs' g,
    AlmaRegistry.watch name v dc vs ls true rs
      = (rs', inr (length (AlmaRegistry.st_objs rs))) /\
    AlmaRegistry.st_vars rs' = <[name := length (AlmaRegistry.st_objs rs)]> (AlmaRegistry.st_vars rs) /\
    AlmaRegistry.st_objs rs' =
      AlmaRegistry.st_objs rs
      ++ [st_self (__init__ (AlmaRegistry.st_world rs) name v dc vs ls).1] /\
    get_var_get name rs' = (rs', inr g) /\
    forall k, view k (w_heap (AlmaRegistry.st_world rs')) g
              = view k (w_heap (AlmaRegistry.st_world rs)) v.
Proof.
  intros Hvar Hh Hv. split.
  - unfold AlmaRegistry.watch. rewrite reg_bind_run.
    unfold AlmaRegistry.get_vars at 1. cbv beta iota.
    rewrite Hvar. rewrite bool_decide_eq_true_2 by eauto. done.
  - eexists _, _. rewrite watch_run_new by apply andb_false_r.
    split; [reflexivity|]. split; [reflexivity|]. split; [reflexivity|].
    rewrite __init___run. cbv zeta. simpl.
    unfold get_var_get. rewrite reg_bind_run. unfold AlmaRegistry.get_var.
    rewrite reg_bind_run. unfold AlmaRegistry.get_vars at 1. cbv beta iota. simpl.
    rewrite lookup_insert_eq. unfold AlmaRegistry.call. simpl.
    rewrite lookup_app_r, Nat.sub_diag by done. simpl.
    rewrite list_insert_id by (by rewrite lookup_app_r, Nat.sub_diag).
    split; [reflexivity|].
    by destruct (snapshot_of_ok dc _ _ Hh Hv) as (_ & _ & _ & ?).
Qed.

Lemma watch_duplicate_name_witness :
  AlmaRegistry.watch "x" (VInt 1) true None None false registry_x =
    (registry_x, inl (AlmaError ("Variable '" +:+ "x" +:+ "' is already registered. "
                                 +:+ "Use overwrite=True to replace it."))) /\
  exists rs' g,
    AlmaRegistry.watch "x" (VInt 1) true None None true registry_x
      = (rs', inr (length (AlmaRegistry.st_objs registry_x))) /\
    AlmaRegistry.st_vars rs' =
      <["x"%string := length (AlmaRegistry.st_objs registry_x)]> (AlmaRegistry.st_vars registry_x) /\
    AlmaRegistry.st_objs rs' =
      AlmaRegistry.st_objs registry_x
      ++ [st_self (__init__ (AlmaRegistry.st_world registry_x) "x" (VInt 1) true None None).1] /\
    get_var_get "x" rs' = (rs', inr g) /\
    forall k, view k (w_heap (AlmaRegistry.st_world rs')) g
              = view k (w_heap (AlmaRegistry.st_world registry_x)) (VInt 1).
Proof.
  apply (watch_duplicate_name registry_x "x"%string (VInt 1) true None None 0%nat).
  - reflexivity.
  - reflexivity.
  - reflexivity.
Defined.

(** ** Further properties of [AlmaVar] *)

(** X1: [freeze] and [thaw] are idempotent, set the flag [is_frozen]
    reads, leave the history alone, and undo each other: freezing and
    thawing a variable that was not frozen gives back the same state. *)
Theorem freeze_thaw_round_trip s :
  (freeze ;; freeze) s = freeze s /\
  (thaw ;; thaw) s = thaw s /\
  (freeze ;; is_frozen) s = ((freeze s).1, inr true) /\
  (thaw ;; is_frozen) s = ((thaw s).1, inr false) /\
  _history (st_self (freeze s).1) = _history (st_self s) /\
  _history (st_self (thaw s).1) = _history (st_self s) /\
  (_frozen (st_self s) = false -> (freeze ;; thaw) s = (s, inr tt)) /\
  (_frozen (st_self s) = true -> (thaw ;; freeze) s = (s, inr tt)).
Proof.
  destruct s as [w [nm dc vs ls fr hist]].
  repeat split; try reflexivity; simpl; intros ->; reflexivity.
Qed.

Lemma freeze_thaw_round_trip_witness :
  (freeze ;; thaw) age = (age, inr tt) /\ (thaw ;; freeze) age_frozen = (age_frozen, inr tt).
Proof.
  split.
  - apply (freeze_thaw_round_trip age). reflexivity.
  - apply (freeze_thaw_round_trip age_frozen). reflexivity.
Defined.

Section Frames.

Implicit Types (s : St) (v : val) (lab : option string).

Lemma snapshot_of_prefix dc h v : h `prefix_of` (snapshot_of dc h v).1.
Proof.
  unfold snapshot_of. destruct dc; [|done].
  destruct (deepcopy h v) as [[h' v']|] eqn:Hc; [|done].
  destruct (deepcopy_isolated _ _ _ _ Hc) as [[ext ->] _]. by exists ext.
Qed.

(** What [set] does to the world and the object, whatever its outcome. *)
Lemma set_effect v lab s s' r :
  AlmaVar.set v lab s = (s', r) ->
  w_clock (st_world s') = w_clock (st_world s) /\
  st_heap s `prefix_of` st_heap s' /\
  (exists es, st_trace s' = st_trace s ++ es /\
              (succeeded r = false -> forallb is_validate es = true)) /\
  ((succeeded r = false /\ st_self s' = st_self s /\
    w_ticks (st_world s') = w_ticks (st_world s) /\ st_heap s' = st_heap s) \/
   (succeeded r = true /\
    w_ticks (st_world s') = S (w_ticks (st_world s)) /\
    exists rec,
      st_self s' = with_history (_history (st_self s) ++ [rec]) (st_self s) /\
      index rec = Z.of_nat (length (_history (st_self s))) /\
      label rec = lab /\
      timestamp rec = w_clock (st_world s) (w_ticks (st_world s)) /\
      value rec = (snapshot_of (_deep_copy (st_self s)) (st_heap s) v).2 /\
      st_heap s' = (snapshot_of (_deep_copy (st_self s)) (st_heap s) v).1)).
Proof.
  rewrite set_run. destruct (_frozen (st_self s)) eqn:Hf.
  { intros [= <- <-]. split; [done|]. split; [done|]. split.
    - exists []. by rewrite app_nil_r.
    - by left. }
  cbv zeta.
  destruct (validate_all (st_heap s) v (_validators (st_self s))) as [es r0] eqn:Hv.
  assert (Hes : forallb is_validate es = true).
  { clear -Hv. revert es r0 Hv. generalize (st_heap s) as h.
    induction (_validators (st_self s)) as [|x xs IH]; intros h es r0 Hv; simpl in Hv.
    - by injection Hv as <- <-.
    - destruct (v_call x h v); [by injection Hv as <- <-|].
      destruct (validate_all h v xs) as [es' r'] eqn:Hxs.
      injection Hv as <- <-. simpl. by eapply IH. }
  destruct r0 as [msg|]; simpl.
  { intros [= <- <-]. split; [done|]. split; [done|]. split.
    - by exists es.
    - by left. }
  intros [= <- <-]. split; [done|]. split; [apply snapshot_of_prefix|]. split.
  - eexists. unfold st_trace; simpl. rewrite <- app_assoc. split; [done|]. done.
  - right. split; [done|]. split; [done|]. eexists. repeat split; reflexivity.
Qed.

(** The same for [rollback]: it fails before anything happens, or it is
    the [set] of a snapshot of the record's value. *)
Lemma rollback_effect i lab s s' r :
  rollback i lab s = (s', r) ->
  w_clock (st_world s') = w_clock (st_world s) /\
  st_heap s `prefix_of` st_heap s' /\
  (exists es, st_trace s' = st_trace s ++ es /\
              (succeeded r = false -> forallb is_validate es = true)) /\
  ((succeeded r = false /\ st_self s' = st_self s /\
    w_ticks (st_world s') = w_ticks (st_world s)) \/
   (succeeded r = true /\
    w_ticks (st_world s') = S (w_ticks (st_world s)) /\
    exists r0 rec,
      _history (st_self s) !! Z.to_nat i = Some r0 /\
      0 <= i < Z.of_nat (length (_history (st_self s))) /\
      st_self s' = with_history (_history (st_self s) ++ [rec]) (st_self s) /\
      index rec = Z.of_nat (length (_history (st_self s))) /\
      label rec = Some (py_or lab ("rollback to index " +:+ pretty i)) /\
      timestamp rec = w_clock (st_world s) (w_ticks (st_world s)) /\
      let snap := snapshot_of (_deep_copy (st_self s)) (st_heap s) (value r0) in
      value rec = (snapshot_of (_deep_copy (st_self s)) snap.1 snap.2).2 /\
      st_heap s' = (snapshot_of (_deep_copy (st_self s)) snap.1 snap.2).1)).
Proof.
  rewrite rollback_run. cbv zeta.
  destruct (_frozen (st_self s)) eqn:Hf.
  { intros [= <- <-]. split; [done|]. split; [done|]. split.
    - exists []. by rewrite app_nil_r.
    - by left. }
  case_bool_decide as Hi.
  { intros [= <- <-]. split; [done|]. split; [done|]. split.
    - exists []. by rewrite app_nil_r.
    - by left. }
  destruct (_history (st_self s) !! Z.to_nat i) as [r0|] eqn:Hr0.
  2:{ intros [= <- <-]. split; [done|]. split; [done|]. split.
      - exists []. by rewrite app_nil_r.
      - by left. }
  intros Hset. apply set_effect in Hset as (Hclock & Hheap & Htrace & Hcases).
  simpl in Hclock, Hheap, Htrace, Hcases.
  split; [done|]. split.
  { etrans; [apply snapshot_of_prefix|exact Hheap]. }
  split; [exact Htrace|].
  destruct Hcases as [(? & ? & ? & ?)|(? & ? & rec & ? & ? & ? & ? & ? & ?)].
  - by left.
  - right. split; [done|]. split; [done|]. exists r0, rec.
    repeat split; try done; lia.
Qed.

(** What one call does to the clock, the identity of the variable and its
    history. *)
Lemma run_call_effect c s s' r :
  run_call c s = (s', r) ->
  w_clock (st_world s') = w_clock (st_world s) /\
  _name (st_self s') = _name (st_self s) /\
  _deep_copy (st_self s') = _deep_copy (st_self s) /\
  ((_history (st_self s') = _history (st_self s) /\
    w_ticks (st_world s') = w_ticks (st_world s)) \/
   (exists rec,
      _history (st_self s') = _history (st_self s) ++ [rec] /\
      w_ticks (st_world s') = S (w_ticks (st_world s)) /\
      timestamp rec = w_clock (st_world s) (w_ticks (st_world s)))).
Proof.
  intros Hrun.
  destruct c; simpl in Hrun;
    try (injection Hrun as <- <-; simpl; repeat split; by left).
  - apply set_effect in Hrun as (? & _ & _ & [(_ & -> & ? & _)|(_ & ? & rec & -> & _ & _ & ? & _)]).
    + repeat split; try done. by left.
    + repeat split; try done. right. by exists rec.
  - apply rollback_effect in Hrun
      as (? & _ & _ & [(_ & -> & ?)|(_ & ? & r0 & rec & _ & _ & -> & _ & _ & ? & _)]).
    + repeat split; try done. by left.
    + repeat split; try done. right. by exists rec.
  - apply rollback_effect in Hrun
      as (? & _ & _ & [(_ & -> & ?)|(_ & ? & r0 & rec & _ & _ & -> & _ & _ & ? & _)]).
    + repeat split; try done. by left.
    + repeat split; try done. right. by exists rec.
  - rewrite bind_run, get_run in Hrun. cbv beta iota in Hrun.
    destruct (last _); injection Hrun as <- <-; repeat split; by left.
  - rewrite bind_run, last_change_run in Hrun. cbv beta iota in Hrun.
    destruct (last _); injection Hrun as <- <-; repeat split; by left.
  - rewrite bind_run, diff_run in Hrun. cbv beta iota in Hrun.
    destruct (diff_loop _ _ _); injection Hrun as <- <-; repeat split; by left.
Qed.

End Frames.

(** X2: the history is append-only.  Whatever calls are made, the history
    before them is a prefix of the history after them, and the name and the
    copy policy of the variable do not change. *)
Theorem history_append_only cs s :
  _history (st_self s) `prefix_of` _history (st_self (run cs s).1) /\
  _name (st_self (run cs s).1) = _name (st_self s) /\
  _deep_copy (st_self (run cs s).1) = _deep_copy (st_self s).
Proof.
  revert s. induction cs as [|c cs IH]; intros s; simpl; [done|].
  destruct (run_call c s) as [s1 r] eqn:Hc.
  apply run_call_effect in Hc as (_ & Hn & Hd & Hh).
  specialize (IH s1). destruct (run cs s1) as [s2 k]. simpl in *.
  destruct IH as (IHh & -> & ->). repeat split; try done.
  etrans; [|exact IHh].
  destruct Hh as [[-> _]|(rec & -> & _)]; [done|]. by apply prefix_app_r.
Qed.


(** X3: a [set], [rollback] or [reset] that raises leaves the variable
    object exactly as it was, takes no clock reading, touches no existing
    heap object, and has called validators only: no listener. *)
Theorem failed_mutation_changes_nothing c s s' e :
  appends c = true ->
  run_call c s = (s', inl e) ->
  st_self s' = st_self s /\
  w_ticks (st_world s') = w_ticks (st_world s) /\
  st_heap s `prefix_of` st_heap s' /\
  exists es, st_trace s' = st_trace s ++ es /\ forallb is_validate es = true.
Proof.
  intros Hc Hrun. destruct c; try discriminate Hc; simpl in Hrun.
  - apply set_effect in Hrun as (_ & ? & (es & ? & Hes) & [(_ & ? & ? & _)|(? & _)]);
      [|done].
    repeat split; try done. exists es. split; [done|]. by apply Hes.
  - apply rollback_effect in Hrun as (_ & ? & (es & ? & Hes) & [(_ & ? & ?)|(? & _)]);
      [|done].
    repeat split; try done. exists es. split; [done|]. by apply Hes.
  - apply rollback_effect in Hrun as (_ & ? & (es & ? & Hes) & [(_ & ? & ?)|(? & _)]);
      [|done].
    repeat split; try done. exists es. split; [done|]. by apply Hes.
Qed.

Lemma failed_mutation_changes_nothing_witness :
  st_self (rollback 0 None negative_age).1 = st_self negative_age /\
  w_ticks (st_world (rollback 0 None negative_age).1) = w_ticks (st_world negative_age) /\
  st_heap negative_age `prefix_of` st_heap (rollback 0 None negative_age).1 /\
  exists es, st_trace (rollback 0 None negative_age).1 = st_trace negative_age ++ es /\
             forallb is_validate es = true.
Proof.
  apply (failed_mutation_changes_nothing (CRollback 0 None) negative_age _
           (ValueError "negative")).
  - reflexivity.
  - reflexivity.
Defined.

(** X4: on a variable that is not frozen, [rollback(i)] raises
    [RollbackError] exactly when [i < 0] or [i >= len(history)]: out of
    range it changes nothing and the message names the index and the range
    [[0, n - 1]]; in range it never raises [RollbackError], [FrozenError]
    or [IndexError]. *)
Theorem rollback_range s i lab :
  _frozen (st_self s) = false ->
  let n := Z.of_nat (length (_history (st_self s))) in
  (i < 0 \/ i >= n ->
   rollback i lab s =
   (s, inl (RollbackError
              ("Rollback index " +:+ pretty i +:+ " is out of range [0, "
               +:+ pretty (n - 1) +:+ "] for variable '"
               +:+ _name (st_self s) +:+ "'.")))) /\
  (0 <= i < n ->
   forall msg, (rollback i lab s).2 <> inl (RollbackError msg) /\
               (rollback i lab s).2 <> inl (FrozenError msg) /\
               (rollback i lab s).2 <> inl IndexError).
Proof.
  intros Hf n. split.
  - intros Hi. rewrite rollback_run. cbv zeta. rewrite Hf.
    by rewrite bool_decide_eq_true_2.
  - intros Hi msg. rewrite rollback_run. cbv zeta. rewrite Hf.
    rewrite bool_decide_eq_false_2 by (subst n; lia).
    destruct (lookup_lt_is_Some_2 (_history (st_self s)) (Z.to_nat i)) as [r0 ->];
      [subst n; lia|].
    rewrite set_run. simpl. rewrite Hf.
    destruct (validate_all _ _ _) as [es [m|]]; simpl; done.
Qed.

Lemma rollback_range_witness :
  let n := Z.of_nat (length (_history (st_self score))) in
  (5 < 0 \/ 5 >= n ->
   rollback 5 None score =
   (score, inl (RollbackError
              ("Rollback index " +:+ pretty 5 +:+ " is out of range [0, "
               +:+ pretty (n - 1) +:+ "] for variable '"
               +:+ _name (st_self score) +:+ "'.")))) /\
  (0 <= 5 < n ->
   forall msg, (rollback 5 None score).2 <> inl (RollbackError msg) /\
               (rollback 5 None score).2 <> inl (FrozenError msg) /\
               (rollback 5 None score).2 <> inl IndexError).
Proof. apply (rollback_range score 5 None). reflexivity. Defined.

(** X5: the record of a successful [rollback] carries the caller's label
    when one is given and not empty, and ["rollback to index i"] when the
    label is absent or the empty string ([label or ...]). *)
Theorem rollback_label s i lab s' :
  rollback i lab s = (s', inr tt) ->
  exists rec,
    last_change s' = (s', inr rec) /\
    label rec =
      Some match lab with
           | Some l => if bool_decide (l = "") then "rollback to index " +:+ pretty i else l
           | None => "rollback to index " +:+ pretty i
           end.
Proof.
  intros Hrb. apply rollback_effect in Hrb
    as (_ & _ & _ & [(? & _)|(_ & _ & r0 & rec & _ & _ & Hself & _ & Hlab & _)]); [done|].
  exists rec. rewrite last_change_run, Hself. simpl. rewrite last_snoc. split; [done|].
  rewrite Hlab. by destruct lab.
Qed.

Lemma rollback_label_witness :
  exists rec,
    last_change (rollback 1 (Some "") score).1 = ((rollback 1 (Some "") score).1, inr rec) /\
    label rec =
      Some match Some ""%string with
           | Some l => if bool_decide (l = "") then "rollback to index " +:+ pretty 1 else l
           | None => "rollback to index " +:+ pretty 1
           end.
Proof. apply (rollback_label score 1 (Some ""%string)). reflexivity. Defined.

(** X6: [reset] never raises [RollbackError] or [IndexError]: index 0
    always exists.  When it returns, one record labelled
    ["reset to initial"] was appended and [get] returns a value equal to
    the one of the record labelled ["initial"]. *)
Theorem reset_restores_initial s s' r :
  reachable s ->
  heap_ok (st_heap s) = true ->
  Forall (fun r => val_ok (st_heap s) (value r) = true) (_history (st_self s)) ->
  reset s = (s', r) ->
  (forall msg, r <> inl (RollbackError msg)) /\
  r <> inl IndexError /\
  (r = inr tt ->
   exists r0 rec,
     _history (st_self s) !! 0%nat = Some r0 /\
     label r0 = Some "initial" /\
     _history (st_self s') = _history (st_self s) ++ [rec] /\
     label rec = Some "reset to initial" /\
     AlmaVar.get s' = (s', inr (value rec)) /\
     forall k, view k (st_heap s') (value rec) = view k (st_heap s) (value r0)).
Proof.
  intros (Hlen & H0 & _)%reachable_history_ok Hh Hvals Hreset. unfold reset in Hreset.
  split; [|split].
  - intros msg ->. rewrite rollback_run in Hreset. cbv zeta in Hreset.
    destruct (_frozen (st_self s)) eqn:Hf; [done|].
    rewrite bool_decide_eq_false_2 in Hreset by lia.
    destruct (_history (st_self s) !! Z.to_nat 0) as [r0|]; [|done].
    rewrite set_run in Hreset. simpl in Hreset. rewrite Hf in Hreset.
    destruct (validate_all _ _ _) as [es [m|]]; simpl in Hreset; done.
  - intros ->. rewrite rollback_run in Hreset. cbv zeta in Hreset.
    destruct (_frozen (st_self s)) eqn:Hf; [done|].
    rewrite bool_decide_eq_false_2 in Hreset by lia.
    destruct (lookup_lt_is_Some_2 (_history (st_self s)) (Z.to_nat 0)) as [r0 Hr0];
      [simpl; lia|].
    rewrite Hr0 in Hreset.
    rewrite set_run in Hreset. simpl in Hreset. rewrite Hf in Hreset.
    destruct (validate_all _ _ _) as [es [m|]]; simpl in Hreset; done.
  - intros ->.
    destruct (rollback_restores _ _ _ _ Hh Hvals Hreset)
      as (r0 & rec & Hr0 & _ & Hhist & Hlab & Hget & Hview).
    exists r0, rec. change (Z.to_nat 0) with 0%nat in Hr0.
    rewrite Hr0 in H0. injection H0 as H0. done.
Qed.

Lemma reset_restores_initial_witness :
  (forall msg, (reset score).2 <> inl (RollbackError msg)) /\
  (reset score).2 <> inl IndexError /\
  ((reset score).2 = inr tt ->
   exists r0 rec,
     _history (st_self score) !! 0%nat = Some r0 /\
     label r0 = Some "initial" /\
     _history (st_self (reset score).1) = _history (st_self score) ++ [rec] /\
     label rec = Some "reset to initial" /\
     AlmaVar.get (reset score).1 = ((reset score).1, inr (value rec)) /\
     forall k, view k (st_heap (reset score).1) (value rec)
               = view k (st_heap score) (value r0)).
Proof.
  apply (reset_restores_initial score (reset score).1 (reset score).2).
  - exists epoch, "score"%string, (VInt 0), true, None, None,
      [CSet (VInt 10) None; CSet (VInt 20) None; CSet (VInt 30) None].
    reflexivity.
  - reflexivity.
  - repeat constructor.
  - reflexivity.
Defined.

(** X7: the constructor never raises and calls no validator and no
    listener, even when it is given validators that reject the initial
    value: it takes one clock reading and stores the initial value, which
    [get] then returns. *)
Theorem constructor_skips_validation w name v dc vs ls :
  heap_ok (w_heap w) = true ->
  val_ok (w_heap w) v = true ->
  exists s g,
    __init__ w name v dc vs ls = (s, inr tt) /\
    w_trace (st_world s) = w_trace w /\
    w_ticks (st_world s) = S (w_ticks w) /\
    _validators (st_self s) = default [] vs /\
    _listeners (st_self s) = default [] ls /\
    _frozen (st_self s) = false /\
    AlmaVar.get s = (s, inr g) /\
    forall k, view k (st_heap s) g = view k (w_heap w) v.
Proof.
  intros Hh Hv. eexists _, _. rewrite __init___run. cbv zeta.
  split; [reflexivity|]. rewrite get_run. simpl.
  repeat split; try reflexivity.
  by destruct (snapshot_of_ok dc _ _ Hh Hv) as (_ & _ & _ & ?).
Qed.

Lemma constructor_skips_validation_witness :
  exists s g,
    __init__ epoch "age" (VInt (-1)) true (Some [must_be_positive]) None = (s, inr tt) /\
    w_trace (st_world s) = w_trace epoch /\
    w_ticks (st_world s) = S (w_ticks epoch) /\
    _validators (st_self s) = default [] (Some [must_be_positive]) /\
    _listeners (st_self s) = default [] None /\
    _frozen (st_self s) = false /\
    AlmaVar.get s = (s, inr g) /\
    forall k, view k (st_heap s) g = view k (w_heap epoch) (VInt (-1)).
Proof.
  apply (constructor_skips_validation epoch "age"%string (VInt (-1)) true
           (Some [must_be_positive]) None); reflexivity.
Defined.

(** X8: a validator added with [add_validator] runs after the validators
    registered before it: when they accept a value and it rejects it, the
    next [set] calls all of them in order, the new one last, raises its
    error and appends nothing. *)
Theorem add_validator_runs_last s fn v lab msg :
  _frozen (st_self s) = false ->
  Forall (fun x => v_call x (st_heap s) v = None) (_validators (st_self s)) ->
  v_call fn (st_heap s) v = Some msg ->
  (add_validator fn ;; AlmaVar.set v lab) s =
  (log (map (fun x => Validate (v_id x) v) (_validators (st_self s) ++ [fn]))
       (with_self (with_validators (_validators (st_self s) ++ [fn]) (st_self s)) s),
   inl (ValueError msg)).
Proof.
  intros Hf Hacc Hfn. rewrite bind_run. unfold add_validator. mstep.
  rewrite set_run. simpl. rewrite Hf.
  change (st_heap (with_self _ s)) with (st_heap s).
  by rewrite (validate_all_reject _ _ _ _ [] _ Hacc Hfn).
Qed.

Lemma add_validator_runs_last_witness :
  (add_validator must_be_positive ;; AlmaVar.set (VInt (-1)) None) score =
  (log (map (fun x => Validate (v_id x) (VInt (-1)))
            (_validators (st_self score) ++ [must_be_positive]))
       (with_self (with_validators (_validators (st_self score) ++ [must_be_positive])
                                   (st_self score)) score),
   inl (ValueError "negative")).
Proof.
  apply (add_validator_runs_last score must_be_positive (VInt (-1)) None "negative").
  - reflexivity.
  - constructor.
  - reflexivity.
Defined.

(** X9: a listener added with [add_listener] is notified by the next
    successful [set], after the listeners registered before it (also when
    they raise) and with the record just appended. *)
Theorem add_listener_notified_last s fn v lab :
  _frozen (st_self s) = false ->
  Forall (fun x => v_call x (st_heap s) v = None) (_validators (st_self s)) ->
  exists s' rec,
    (add_listener fn ;; AlmaVar.set v lab) s = (s', inr tt) /\
    last (_history (st_self s')) = Some rec /\
    _listeners (st_self s') = _listeners (st_self s) ++ [fn] /\
    st_trace s' = st_trace s
                  ++ map (fun x => Validate (v_id x) v) (_validators (st_self s))
                  ++ map (fun l => Notify (l_id l) rec) (_listeners (st_self s))
                  ++ [Notify (l_id fn) rec].
Proof.
  intros Hf Hacc. rewrite bind_run. unfold add_listener. mstep.
  rewrite set_run. simpl. rewrite Hf.
  change (st_heap (with_self _ s)) with (st_heap s).
  rewrite (validate_all_accept _ _ _ Hacc). simpl.
  eexists _, _. split; [reflexivity|]. simpl. rewrite last_snoc.
  split; [reflexivity|]. split; [reflexivity|].
  unfold st_trace. simpl. by rewrite map_app, <- !app_assoc.
Qed.

Lemma add_listener_notified_last_witness :
  exists s' rec,
    (add_listener quiet_listener ;; AlmaVar.set (VInt 1) None) noisy = (s', inr tt) /\
    last (_history (st_self s')) = Some rec /\
    _listeners (st_self s') = _listeners (st_self noisy) ++ [quiet_listener] /\
    st_trace s' = st_trace noisy
                  ++ map (fun x => Validate (v_id x) (VInt 1)) (_validators (st_self noisy))
                  ++ map (fun l => Notify (l_id l) rec) (_listeners (st_self noisy))
                  ++ [Notify (l_id quiet_listener) rec].
Proof.
  apply (add_listener_notified_last noisy quiet_listener (VInt 1) None).
  - reflexivity.
  - constructor.
Defined.

Section Clock.

Lemma run_clock_inv clock t0 cs : forall s,
  clock_inv clock t0 s -> clock_inv clock t0 (run cs s).1.
Proof.
  induction cs as [|c cs IH]; intros s Hinv; simpl; [done|].
  destruct (run_call c s) as [s1 r] eqn:Hc.
  apply run_call_effect in Hc as (Hclock & _ & _ & Hh).
  specialize (IH s1). destruct (run cs s1) as [s2 k]. simpl in *. apply IH.
  destruct Hinv as (Hc0 & Ht & Hts).
  destruct Hh as [[Hh Hticks]|(rec & Hh & Hticks & Hrec)].
  - split; [congruence|]. rewrite Hh, Hticks. done.
  - split; [congruence|]. rewrite Hh, Hticks, length_app. split; [simpl; lia|].
    intros i r0 Hi. destruct (decide (i < length (_history (st_self s)))%nat).
    + rewrite lookup_app_l in Hi by done. by apply Hts.
    + rewrite lookup_app_r in Hi by lia.
      destruct (i - length (_history (st_self s)))%nat as [|j] eqn:Hj; [|done].
      injection Hi as <-. rewrite Hrec, Hc0, Ht. f_equal. lia.
Qed.

Lemma __init___clock_inv w name v dc vs ls :
  clock_inv (w_clock w) (w_ticks w) (__init__ w name v dc vs ls).1.
Proof.
  rewrite __init___run. cbv zeta. split; [done|]. split; [simpl; lia|].
  intros [|i] r [= <-]. simpl. f_equal. lia.
Qed.

End Clock.

(** X10: the timestamps of the history are consecutive readings of the
    clock: record [i] carries reading [t0 + i], where [t0] is the number of
    readings taken before the constructor, and no call takes a reading
    without appending a record. *)
Theorem timestamps_are_clock_readings w name v dc vs ls cs :
  let s := (run cs (__init__ w name v dc vs ls).1).1 in
  w_clock (st_world s) = w_clock w /\
  w_ticks (st_world s) = (w_ticks w + length (_history (st_self s)))%nat /\
  forall i r, _history (st_self s) !! i = Some r ->
              timestamp r = w_clock w (w_ticks w + i)%nat.
Proof. intros s. apply run_clock_inv, __init___clock_inv. Qed.

(** X11: when the clock never goes back, every entry of [diff] has a
    non-negative [elapsed_ms], after any calls. *)
Theorem monotone_clock_elapsed_nonneg w name v dc vs ls cs :
  monotone_clock w ->
  let s := (run cs (__init__ w name v dc vs ls).1).1 in
  exists d, diff s = (s, inr d) /\ elapsed_nonneg d.
Proof.
  intros Hmono s.
  destruct (run_clock_inv _ _ cs _ (__init___clock_inv w name v dc vs ls))
    as (_ & _ & Hts). fold s in Hts.
  eexists. rewrite diff_run, diff_loop_pairs. split; [reflexivity|].
  apply Forall_lookup_2. intros k e He.
  apply lookup_zip_with_Some in He as (prev & curr & -> & Hprev & Hcurr).
  rewrite lookup_tail in Hcurr. simpl. rewrite round3_elapsed.
  rewrite (Hts _ _ Hprev), (Hts _ _ Hcurr).
  replace (w_ticks w + S k)%nat with (S (w_ticks w + k)) by lia.
  pose proof (Hmono (w_ticks w + k)%nat). unfold Qle; simpl. lia.
Qed.

Lemma monotone_clock_elapsed_nonneg_witness :
  exists d, diff score = (score, inr d) /\ elapsed_nonneg d.
Proof.
  apply (monotone_clock_elapsed_nonneg epoch "score"%string (VInt 0) true None None
           [CSet (VInt 10) None; CSet (VInt 20) None; CSet (VInt 30) None]).
  intros n. simpl. lia.
Defined.

(** X12: [last_change] and [get] agree: [last_change] returns the last
    record, [get] returns its value, its [index] is [len(history) - 1], and
    on a variable whose history has one record it is the record labelled
    ["initial"]. *)
Theorem last_change_agrees_with_get s :
  reachable s ->
  exists r,
    last_change s = (s, inr r) /\
    AlmaVar.get s = (s, inr (value r)) /\
    index r = Z.of_nat (length (_history (st_self s))) - 1 /\
    (length (_history (st_self s)) = 1%nat -> label r = Some "initial").
Proof.
  intros (Hlen & H0 & Hidx)%reachable_history_ok.
  destruct (last (_history (st_self s))) as [r|] eqn:Hlast.
  2:{ apply last_None in Hlast. rewrite Hlast in Hlen. simpl in Hlen. lia. }
  exists r. rewrite last_change_run, get_run, Hlast. split; [done|]. split; [done|].
  rewrite last_lookup in Hlast. split.
  - rewrite (Hidx _ _ Hlast). lia.
  - intros H1. rewrite H1 in Hlast. simpl in Hlast. rewrite Hlast in H0.
    by injection H0.
Qed.

Lemma last_change_agrees_with_get_witness :
  exists r,
    last_change score = (score, inr r) /\
    AlmaVar.get score = (score, inr (value r)) /\
    index r = Z.of_nat (length (_history (st_self score))) - 1 /\
    (length (_history (st_self score)) = 1%nat -> label r = Some "initial").
Proof.
  apply (last_change_agrees_with_get score).
  exists epoch, "score"%string, (VInt 0), true, None, None,
    [CSet (VInt 10) None; CSet (VInt 20) None; CSet (VInt 30) None].
  reflexivity.
Defined.

Section Stored.

Lemma snapshot_of_ref dc h l :
  (l < length h)%nat ->
  exists l', (snapshot_of dc h (VRef l)).2 = VRef l' /\
             (l' < length (snapshot_of dc h (VRef l)).1)%nat.
Proof.
  intros Hl. unfold snapshot_of.
  assert (Hsame : exists l', VRef l = VRef l' /\ (l' < length h)%nat) by eauto.
  destruct dc; [|done].
  destruct (deepcopy h (VRef l)) as [[h' v']|] eqn:Hc; [|done].
  unfold deepcopy in Hc. destruct recursion_limit as [|f]; [done|]. simpl in Hc.
  destruct (h !! l) as [[items|]|]; try done.
  destruct (copy_items _ _ _) as [[h1 items']|]; [|done].
  injection Hc as <- <-. eexists. split; [done|]. simpl. rewrite length_app. simpl. lia.
Qed.

End Stored.

(** X13: [get] returns the stored object itself, with copy on store
    enabled too: after a [set] of a heap object, the value [get] returns is
    a live object of the heap, and when the caller mutates it the mutation
    is what [get] returns next. *)
Theorem get_returns_stored_object s l lab s' :
  (l < length (st_heap s))%nat ->
  AlmaVar.set (VRef l) lab s = (s', inr tt) ->
  exists l', (l' < length (st_heap s'))%nat /\ aliases l' s'.
Proof.
  intros Hl Hset.
  apply set_effect in Hset
    as (_ & _ & _ & [(? & _)|(_ & _ & rec & Hself & _ & _ & _ & Hval & Hheap)]); [done|].
  destruct (snapshot_of_ref (_deep_copy (st_self s)) _ _ Hl) as (l' & Hl' & Hlt).
  exists l'. rewrite Hheap. split; [done|]. unfold aliases.
  rewrite get_run, Hself. simpl. rewrite last_snoc, Hval, Hl'. split; [done|].
  intros o. rewrite mutate_get_run, Hself. simpl. rewrite last_snoc, Hval, Hl'.
  split; [done|]. rewrite Hheap. by apply list_lookup_insert_eq.
Qed.

Lemma get_returns_stored_object_witness :
  exists l', (l' < length (st_heap (AlmaVar.set (VRef 0) None data_var).1))%nat /\
             aliases l' (AlmaVar.set (VRef 0) None data_var).1.
Proof.
  apply (get_returns_stored_object data_var 0%nat None).
  - simpl. lia.
  - reflexivity.
Defined.

(** X14: with copy on store disabled a successful [rollback(i)] allocates
    nothing and appends a record whose value is the very value of record
    [i]: both records refer to the same object. *)
Theorem rollback_without_copy_shares_object s i lab s' :
  _deep_copy (st_self s) = false ->
  rollback i lab s = (s', inr tt) ->
  exists r0 rec,
    _history (st_self s') !! Z.to_nat i = Some r0 /\
    last (_history (st_self s')) = Some rec /\
    value rec = value r0 /\
    st_heap s' = st_heap s.
Proof.
  intros Hdc Hrb. apply rollback_effect in Hrb
    as (_ & _ & _ & [(? & _)|(_ & _ & r0 & rec & Hr0 & _ & Hself & _ & _ & _ & Hval & Hheap)]);
    [done|].
  rewrite Hdc in Hval, Hheap. simpl in Hval, Hheap.
  exists r0, rec. rewrite Hself. simpl. rewrite last_snoc.
  split; [by apply lookup_app_l_Some|]. done.
Qed.

Lemma rollback_without_copy_shares_object_witness :
  exists r0 rec,
    _history (st_self (rollback 0 None shared_data).1) !! Z.to_nat 0 = Some r0 /\
    last (_history (st_self (rollback 0 None shared_data).1)) = Some rec /\
    value rec = value r0 /\
    st_heap (rollback 0 None shared_data).1 = st_heap shared_data.
Proof.
  apply (rollback_without_copy_shares_object shared_data 0 None); reflexivity.
Defined.

(** ** Further properties of [AlmaRegistry] *)

Section RegistryFacts.

Implicit Types (rs : AlmaRegistry.St) (name : string) (var : nat).

Lemma get_var_run name rs :
  AlmaRegistry.get_var name rs =
  (rs, match AlmaRegistry.st_vars rs !! name with
       | Some var => inr var
       | None => inl (AlmaError ("No variable named '" +:+ name +:+ "' is registered."))
       end).
Proof.
  unfold AlmaRegistry.get_var. rewrite reg_bind_run.
  unfold AlmaRegistry.get_vars at 1. cbv beta iota.
  by destruct (AlmaRegistry.st_vars rs !! name).
Qed.

Lemma unregister_run name rs :
  AlmaRegistry.unregister name rs =
  match AlmaRegistry.st_vars rs !! name with
  | Some _ =>
      (AlmaRegistry.mkSt (AlmaRegistry.st_world rs) (AlmaRegistry.st_objs rs)
                         (delete name (AlmaRegistry.st_vars rs)), inr tt)
  | None => (rs, inl (AlmaError ("No variable named '" +:+ name +:+ "' is registered.")))
  end.
Proof.
  unfold AlmaRegistry.unregister. rewrite reg_bind_run.
  unfold AlmaRegistry.get_vars at 1. cbv beta iota.
  destruct (AlmaRegistry.st_vars rs !! name) eqn:Hn.
  - by rewrite bool_decide_eq_true_2 by eauto.
  - rewrite bool_decide_eq_false_2; [done|]. by intros [? ?].
Qed.

Lemma watch_run_taken name v dc vs ls rs var :
  AlmaRegistry.st_vars rs !! name = Some var ->
  watch name v dc vs ls false rs =
  (rs, inl (AlmaError ("Variable '" +:+ name +:+ "' is already registered. "
                       +:+ "Use overwrite=True to replace it."))).
Proof.
  intros Hvar. unfold watch, AlmaRegistry.watch. rewrite reg_bind_run.
  unfold AlmaRegistry.get_vars at 1. cbv beta iota.
  rewrite Hvar. by rewrite bool_decide_eq_true_2 by eauto.
Qed.

Lemma call_get_run var rs :
  AlmaRegistry.call var AlmaVar.get rs =
  (rs, match current_value (AlmaRegistry.st_objs rs) var with
       | Some g => inr g
       | None => inl IndexError
       end).
Proof.
  unfold AlmaRegistry.call, current_value. destruct rs as [w objs vars]. simpl.
  destruct (objs !! var) as [x|] eqn:Hx; simpl; [|done].
  rewrite get_run. simpl. rewrite (list_insert_id _ _ _ Hx).
  by destruct (last (_history x)).
Qed.

(** The loop of [snapshot] changes nothing and collects the current values. *)
Lemma snapshot_loop_run items : forall result rs,
  Forall (fun item => is_Some (current_value (AlmaRegistry.st_objs rs) item.2)) items ->
  exists snap,
    AlmaRegistry.snapshot_loop items result rs = (rs, inr snap) /\
    (NoDup items.*1 ->
     forall name,
       snap !! name =
       match (list_to_map items : gmap string nat) !! name with
       | Some var => current_value (AlmaRegistry.st_objs rs) var
       | None => result !! name
       end).
Proof.
  induction items as [|[n var] items IH]; intros result rs Hall; simpl.
  - exists result. split; [done|]. intros _ name. by rewrite lookup_empty.
  - apply Forall_cons_1 in Hall as [[g Hg] Hall]. simpl in Hg.
    rewrite reg_bind_run, call_get_run, Hg.
    destruct (IH (<[n := g]> result) rs Hall) as (snap & Hrun & Hsnap).
    exists snap. split; [done|]. intros [Hn Hnd]%NoDup_cons name.
    rewrite (Hsnap Hnd name). destruct (decide (name = n)) as [->|Hne].
    + rewrite lookup_insert_eq.
      rewrite (not_elem_of_list_to_map_1 (M:=gmap string) items n Hn). 
      by rewrite lookup_insert_eq.
    + assert (n <> name) by congruence. rewrite !lookup_insert_ne by done. done.
Qed.

End RegistryFacts.

(** X15: on a name that is not registered [get_var] and [unregister]
    raise [AlmaError] with the message
    ["No variable named '<name>' is registered."] and change nothing. *)
Theorem get_var_missing name rs :
  AlmaRegistry.st_vars rs !! name = None ->
  AlmaRegistry.get_var name rs =
    (rs, inl (AlmaError ("No variable named '" +:+ name +:+ "' is registered."))) /\
  AlmaRegistry.unregister name rs =
    (rs, inl (AlmaError ("No variable named '" +:+ name +:+ "' is registered."))).
Proof. intros Hn. by rewrite get_var_run, unregister_run, Hn. Qed.

Lemma get_var_missing_witness :
  AlmaRegistry.get_var "missing" registry_ab =
    (registry_ab, inl (AlmaError ("No variable named '" +:+ "missing" +:+ "' is registered."))) /\
  AlmaRegistry.unregister "missing" registry_ab =
    (registry_ab, inl (AlmaError ("No variable named '" +:+ "missing" +:+ "' is registered."))).
Proof. apply (get_var_missing "missing"%string registry_ab). reflexivity. Defined.

(** X16: [unregister] of a registered name removes the binding and
    nothing else: the variable objects and the other names are as before,
    [get_var] of the name now raises, and the name can be registered again
    without [overwrite]. *)
Theorem unregister_removes_binding name var rs :
  AlmaRegistry.st_vars rs !! name = Some var ->
  exists rs',
    AlmaRegistry.unregister name rs = (rs', inr tt) /\
    AlmaRegistry.st_objs rs' = AlmaRegistry.st_objs rs /\
    AlmaRegistry.st_world rs' = AlmaRegistry.st_world rs /\
    AlmaRegistry.get_var name rs' =
      (rs', inl (AlmaError ("No variable named '" +:+ name +:+ "' is registered."))) /\
    (forall name', name' <> name ->
       AlmaRegistry.st_vars rs' !! name' = AlmaRegistry.st_vars rs !! name') /\
    forall v dc vs ls, exists rs'',
      watch name v dc vs ls false rs' = (rs'', inr (length (AlmaRegistry.st_objs rs))) /\
      AlmaRegistry.get_var name rs'' = (rs'', inr (length (AlmaRegistry.st_objs rs))).
Proof.
  intros Hvar. eexists. rewrite unregister_run, Hvar. split; [reflexivity|].
  split; [reflexivity|]. split; [reflexivity|].
  rewrite get_var_run. simpl. rewrite lookup_delete_eq. split; [reflexivity|]. split.
  - intros name' Hne. by rewrite lookup_delete_ne.
  - intros v dc vs ls. eexists. unfold watch. rewrite watch_run_new.
    + split; [reflexivity|]. rewrite get_var_run. simpl. by rewrite lookup_insert_eq.
    + simpl. rewrite lookup_delete_eq. rewrite bool_decide_eq_false_2; [done|].
      by intros [? ?].
Qed.

Lemma unregister_removes_binding_witness :
  exists rs',
    AlmaRegistry.unregister "a" registry_ab = (rs', inr tt) /\
    AlmaRegistry.st_objs rs' = AlmaRegistry.st_objs registry_ab /\
    AlmaRegistry.st_world rs' = AlmaRegistry.st_world registry_ab /\
    AlmaRegistry.get_var "a" rs' =
      (rs', inl (AlmaError ("No variable named '" +:+ "a" +:+ "' is registered."))) /\
    (forall name', name' <> "a"%string ->
       AlmaRegistry.st_vars rs' !! name' = AlmaRegistry.st_vars registry_ab !! name') /\
    forall v dc vs ls, exists rs'',
      watch "a" v dc vs ls false rs'
        = (rs'', inr (length (AlmaRegistry.st_objs registry_ab))) /\
      AlmaRegistry.get_var "a" rs'' = (rs'', inr (length (AlmaRegistry.st_objs registry_ab))).
Proof. apply (unregister_removes_binding "a"%string 0%nat registry_ab). reflexivity. Defined.

(** X17: [watch] of a name that is not registered succeeds with or
    without [overwrite]: it returns a new object, which [get_var] then
    returns for this name; the object carries the name, is not frozen and
    has one record; the existing objects and the other names are as
    before. *)
Theorem watch_registers_new_variable name v dc vs ls overwrite rs :
  AlmaRegistry.st_vars rs !! name = None ->
  exists rs' x,
    watch name v dc vs ls overwrite rs = (rs', inr (length (AlmaRegistry.st_objs rs))) /\
    AlmaRegistry.get_var name rs' = (rs', inr (length (AlmaRegistry.st_objs rs))) /\
    AlmaRegistry.st_objs rs' = AlmaRegistry.st_objs rs ++ [x] /\
    _name x = name /\ _frozen x = false /\ length (_history x) = 1%nat /\
    forall name', name' <> name ->
      AlmaRegistry.st_vars rs' !! name' = AlmaRegistry.st_vars rs !! name'.
Proof.
  intros Hfree. eexists _, _. unfold watch. rewrite watch_run_new.
  2:{ rewrite Hfree. rewrite bool_decide_eq_false_2; [done|]. by intros [? ?]. }
  split; [reflexivity|]. rewrite get_var_run. simpl. rewrite lookup_insert_eq.
  split; [reflexivity|]. split; [reflexivity|].
  rewrite __init___run. cbv zeta. simpl. repeat split.
  intros name' Hne. by rewrite lookup_insert_ne.
Qed.

Lemma watch_registers_new_variable_witness :
  exists rs' x,
    watch "c" (VInt 3) true None None false registry_ab
      = (rs', inr (length (AlmaRegistry.st_objs registry_ab))) /\
    AlmaRegistry.get_var "c" rs' = (rs', inr (length (AlmaRegistry.st_objs registry_ab))) /\
    AlmaRegistry.st_objs rs' = AlmaRegistry.st_objs registry_ab ++ [x] /\
    _name x = "c"%string /\ _frozen x = false /\ length (_history x) = 1%nat /\
    forall name', name' <> "c"%string ->
      AlmaRegistry.st_vars rs' !! name' = AlmaRegistry.st_vars registry_ab !! name'.
Proof.
  apply (watch_registers_new_variable "c"%string (VInt 3) true None None false registry_ab).
  reflexivity.
Defined.

Section RegistryInvariant.

Implicit Types (rs : AlmaRegistry.St) (name : string) (var : nat).

Lemma snapshot_unchanged rs : (AlmaRegistry.snapshot rs).1 = rs.
Proof.
  unfold AlmaRegistry.snapshot. rewrite reg_bind_run.
  unfold AlmaRegistry.get_vars at 1. cbv beta iota.
  generalize (∅ : gmap string val) as result.
  induction (map_to_list (AlmaRegistry.st_vars rs)) as [|[n var] items IH];
    intros result; simpl; [done|].
  rewrite reg_bind_run, call_get_run.
  destruct (current_value _ _); [apply IH|done].
Qed.

Lemma run_reg_call_ok c rs : registry_ok rs -> registry_ok (run_reg_call c rs).1.
Proof.
  intros Hok. destruct c as [name v dc vs ls ow|name| |name| |var c]; simpl.
  - rewrite reg_bind_run. unfold watch.
    destruct (bool_decide (is_Some (AlmaRegistry.st_vars rs !! name)) && negb ow) eqn:Hb.
    + unfold AlmaRegistry.watch. rewrite reg_bind_run.
      unfold AlmaRegistry.get_vars at 1. cbv beta iota. by rewrite Hb.
    + rewrite (watch_run_new _ _ _ _ _ _ _ Hb). cbv beta iota zeta. simpl.
      intros name' var'. simpl. destruct (decide (name' = name)) as [->|Hne].
      * rewrite lookup_insert_eq. intros [= <-].
        eexists. rewrite lookup_app_r, Nat.sub_diag by done. split; [done|].
        rewrite __init___run. cbv zeta. simpl. split; [done|].
        split; [done|]. split; [done|]. by intros [|i] r [= <-].
      * rewrite lookup_insert_ne by done. intros Hv.
        destruct (Hok _ _ Hv) as (x & Hx & ? & ?). exists x.
        split; [by apply lookup_app_l_Some|done].
  - by rewrite reg_bind_run, get_var_run; destruct (_ !! name).
  - done.
  - rewrite unregister_run. destruct (AlmaRegistry.st_vars rs !! name) eqn:Hn; [|done].
    intros name' var'. simpl. intros Hv. apply lookup_delete_Some in Hv as [_ Hv].
    by apply Hok.
  - rewrite reg_bind_run.
    pose proof (snapshot_unchanged rs) as Hs.
    destruct (AlmaRegistry.snapshot rs) as [rs' [e|snap]]; simpl in Hs; by subst.
  - unfold AlmaRegistry.call.
    destruct (AlmaRegistry.st_objs rs !! var) as [x|] eqn:Hx; [|done].
    destruct (run_call c _) as [vs r] eqn:Hc. simpl.
    intros name' var' Hv. simpl in Hv.
    destruct (Hok _ _ Hv) as (x' & Hx' & Hname & Hhist).
    destruct (decide (var' = var)) as [->|Hne].
    + exists (st_self vs). simpl.
      rewrite list_lookup_insert_eq by (by eapply lookup_lt_Some).
      split; [done|]. rewrite Hx in Hx'. injection Hx' as <-.
      pose proof (run_call_effect _ _ _ _ Hc) as (_ & Hn & _).
      pose proof (run_call_history _ _ _ _ Hc Hhist) as [Hh _].
      simpl in Hn. by rewrite Hn.
    + exists x'. simpl. by rewrite list_lookup_insert_ne.
Qed.

Lemma reg_run_ok cs : forall rs, registry_ok rs -> registry_ok (reg_run cs rs).
Proof.
  induction cs as [|c cs IH]; intros rs Hok; simpl; [done|].
  by apply IH, run_reg_call_ok.
Qed.

Lemma __init___registry_ok w objs : registry_ok (AlmaRegistry.__init__ w objs).
Proof. intros name var Hv. simpl in Hv. by rewrite lookup_empty in Hv. Qed.

End RegistryInvariant.

(** X18: in a registry, after any sequence of calls ([watch], [get_var],
    [all_vars], [unregister], [snapshot], and methods called on any
    variable object), every registered name is bound to a live variable
    object whose name is that key and whose history is well-formed. *)
Theorem registry_names_match w objs cs :
  registry_ok (reg_run cs (AlmaRegistry.__init__ w objs)).
Proof. apply reg_run_ok, __init___registry_ok. Qed.


(** X20: [snapshot] returns normally and changes nothing; its result has
    exactly the registered names as keys and maps each name to what
    [get_var(name).get()] returns. *)
Theorem snapshot_reads_every_variable rs :
  registry_ok rs ->
  exists snap,
    AlmaRegistry.snapshot rs = (rs, inr snap) /\
    dom snap = dom (AlmaRegistry.st_vars rs) /\
    forall name var,
      AlmaRegistry.st_vars rs !! name = Some var ->
      exists g, snap !! name = Some g /\ get_var_get name rs = (rs, inr g).
Proof.
  intros Hok.
  assert (Hcv : forall name var, AlmaRegistry.st_vars rs !! name = Some var ->
                  is_Some (current_value (AlmaRegistry.st_objs rs) var)).
  { intros name var Hv. destruct (Hok _ _ Hv) as (x & Hx & _ & Hlen & _).
    unfold current_value. rewrite Hx. simpl.
    destruct (last (_history x)) eqn:Hl; [by eexists|].
    apply last_None in Hl. rewrite Hl in Hlen. simpl in Hlen. lia. }
  destruct (snapshot_loop_run (map_to_list (AlmaRegistry.st_vars rs)) ∅ rs)
    as (snap & Hrun & Hsnap).
  { apply Forall_forall. intros [n var] Hin%elem_of_map_to_list. by eapply Hcv. }
  specialize (Hsnap (NoDup_fst_map_to_list _)).
  assert (Hlk : forall name, snap !! name =
            match AlmaRegistry.st_vars rs !! name with
            | Some var => current_value (AlmaRegistry.st_objs rs) var
            | None => None
            end).
  { intros name. rewrite Hsnap, list_to_map_to_list. by rewrite lookup_empty. }
  exists snap. split.
  { unfold AlmaRegistry.snapshot. rewrite reg_bind_run.
    unfold AlmaRegistry.get_vars at 1. cbv beta iota. exact Hrun. }
  split.
  - apply set_eq. intros name. rewrite !elem_of_dom, Hlk.
    destruct (AlmaRegistry.st_vars rs !! name) as [var|] eqn:Hv.
    + split; [by eauto|]. intros _. by eapply Hcv.
    + split; intros [? ?]; done.
  - intros name var Hv. destruct (Hcv _ _ Hv) as [g Hg]. exists g.
    rewrite Hlk, Hv. split; [done|].
    unfold get_var_get. rewrite reg_bind_run, get_var_run, Hv, call_get_run, Hg. done.
Qed.

Lemma snapshot_reads_every_variable_witness :
  exists snap,
    AlmaRegistry.snapshot registry_ab = (registry_ab, inr snap) /\
    dom snap = dom (AlmaRegistry.st_vars registry_ab) /\
    forall name var,
      AlmaRegistry.st_vars registry_ab !! name = Some var ->
      exists g, snap !! name = Some g /\ get_var_get name registry_ab = (registry_ab, inr g).
Proof.
  apply (snapshot_reads_every_variable registry_ab).
  apply (reg_run_ok [RWatch "a" (VInt 1) true None None false;
                     RWatch "b" (VInt 2) true None None false]).
  apply __init___registry_ok.
Defined.

Example registry_snapshot :
  (AlmaRegistry.snapshot registry_ab).2
  = inr ({["a"%string := VInt 1; "b"%string := VInt 2]} : gmap string val).
Proof. vm_compute. reflexivity. Qed.

Section RegistryIndependence.

Implicit Types (rs : AlmaRegistry.St) (name : string) (var : nat).




End RegistryIndependence.


